(** * CD-key redemption scripts: cdkey.py, cd_key_retrieval.py,
      cdkey_info_retrieval.py

    A shallow embedding of the three scripts.  Each script makes HTTP GET
    requests, decodes the JSON bodies, walks them with Python subscripts and
    truth tests, and maps the redemption endpoint's [retcode] to a label.

    - JSON values are the Python objects [response.json()] builds.  Numbers
      are the integers; non-integer JSON numbers are outside the model.
    - The remote side is an oracle that answers a request knowing every
      earlier exchange of the run, so a server may answer the same request
      differently the second time.
    - A program is a tree of remote calls ending in a value or in a raised
      exception; [run] plays it against an oracle and records the exchanges.
    - [print] calls write to stdout only and are left out. *)

From Stdlib Require Import ZArith List String Bool Lia.
Import ListNotations.
Local Open Scope string_scope.
Local Open Scope list_scope.
Set Warnings "-register-all".

(** ** Python values *)

Inductive json : Type :=
| JNull
| JBool (b : bool)
| JInt (z : Z)
| JStr (s : string)
| JArr (items : list json)
| JObj (fields : list (string * json)).

Inductive exn : Type :=
| TypeError
| KeyError
| IndexError
| RequestException
| JSONDecodeError.

Definition result (A : Type) : Type := (exn + A)%type.
Abbreviation Ok := (@inr exn _).
Abbreviation Err := (@inl exn _).

(** [bool(v)]: what [if v] and [not v] look at. *)
Definition truthy (v : json) : bool :=
  match v with
  | JNull => false
  | JBool b => b
  | JInt z => negb (Z.eqb z 0)
  | JStr s => negb (String.eqb s "")
  | JArr items => match items with [] => false | _ :: _ => true end
  | JObj fields => match fields with [] => false | _ :: _ => true end
  end.

(** Items of a dict, in insertion order. *)
Fixpoint assoc {V : Type} (k : string) (d : list (string * V)) : option V :=
  match d with
  | [] => None
  | (k', v) :: d' => if String.eqb k k' then Some v else assoc k d'
  end.

(** [v[k]] for a [str] key [k]; only a dict accepts it. *)
Definition getitem (v : json) (k : string) : result json :=
  match v with
  | JObj fields =>
      match assoc k fields with
      | Some x => Ok x
      | None => Err KeyError
      end
  | _ => Err TypeError
  end.

(** [v[0]]. A JSON object has only [str] keys, so [0] is never one. *)
Definition getitem0 (v : json) : result json :=
  match v with
  | JArr [] => Err IndexError
  | JArr (x :: _) => Ok x
  | JStr EmptyString => Err IndexError
  | JStr (String c _) => Ok (JStr (String c EmptyString))
  | JObj _ => Err KeyError
  | _ => Err TypeError
  end.

Fixpoint chars (s : string) : list json :=
  match s with
  | EmptyString => []
  | String c s' => JStr (String c EmptyString) :: chars s'
  end.

(** What [for x in v] visits. *)
Definition iter (v : json) : result (list json) :=
  match v with
  | JArr items => Ok items
  | JStr s => Ok (chars s)
  | JObj fields => Ok (map (fun kv => JStr (fst kv)) fields)
  | _ => Err TypeError
  end.

(** Lists and dicts cannot be dict keys. *)
Definition hashable (v : json) : bool :=
  match v with
  | JArr _ | JObj _ => false
  | _ => true
  end.

(** [a == b] on hashable values: [True == 1] and [False == 0]. *)
Definition py_eqb (a b : json) : bool :=
  match a, b with
  | JNull, JNull => true
  | JBool x, JBool y => Bool.eqb x y
  | JBool x, JInt z => Z.eqb (if x then 1 else 0) z
  | JInt z, JBool y => Z.eqb z (if y then 1 else 0)
  | JInt x, JInt y => Z.eqb x y
  | JStr x, JStr y => String.eqb x y
  | _, _ => false
  end.

(** ** Python dicts: insertion ordered, an assignment to a present key
    keeps the key object and its place. *)

Section Dict.
Context {K V : Type}.
Variable eqb : K -> K -> bool.

Definition dict : Type := list (K * V).

Fixpoint dict_find (k : K) (d : dict) : option V :=
  match d with
  | [] => None
  | (k', v) :: d' => if eqb k' k then Some v else dict_find k d'
  end.

Definition dict_mem (k : K) (d : dict) : bool :=
  match dict_find k d with Some _ => true | None => false end.

Fixpoint dict_set (k : K) (v : V) (d : dict) : dict :=
  match d with
  | [] => [(k, v)]
  | (k', v') :: d' =>
      if eqb k' k then (k', v) :: d' else (k', v') :: dict_set k v d'
  end.
End Dict.

Arguments dict : clear implicits.

(** [d.get(key, default)] on a dict keyed by JSON values. *)
Definition dict_get {V : Type} (d : dict json V) (key : json) (default : V)
  : result V :=
  if hashable key then
    match dict_find py_eqb key d with
    | Some v => Ok v
    | None => Ok default
    end
  else Err TypeError.

(** ** Remote calls *)

Record request : Type := mk_request {
  url : string;
  params : list (string * json);
  headers : list (string * string);
  timeout : Z
}.

Inductive outcome : Type :=
| NetworkFailure
| MalformedBody
| Body (j : json).

Definition event : Type := (request * outcome)%type.
Definition trace : Type := list event.

(** The oracle sees the exchanges so far and the request. *)
Definition remote : Type := trace -> request -> outcome.

Inductive prog (A : Type) : Type :=
| Ret (a : A)
| Raise (e : exn)
| Call (rq : request) (k : outcome -> prog A).

Arguments Ret {A} a.
Arguments Raise {A} e.
Arguments Call {A} rq k.

Fixpoint bind {A B : Type} (p : prog A) (f : A -> prog B) : prog B :=
  match p with
  | Ret a => f a
  | Raise e => Raise e
  | Call rq k => Call rq (fun o => bind (k o) f)
  end.

Definition lift {A : Type} (x : result A) : prog A :=
  match x with
  | inl e => Raise e
  | inr a => Ret a
  end.

Notation "x <- p ;; q" := (bind p (fun x => q))
  (at level 61, p at next level, right associativity).

(** [requests.get(...).json()] and [session.get(...).json()]: the call
    raises when the transport fails and [.json()] raises on a body that is
    not JSON. *)
Definition get_json (rq : request) : prog json :=
  Call rq (fun o =>
    match o with
    | NetworkFailure => Raise RequestException
    | MalformedBody => Raise JSONDecodeError
    | Body j => Ret j
    end).

(** Plays [p] against [r] after the exchanges [h]; returns the exchanges
    [p] made and how it ended. *)
Fixpoint run {A : Type} (r : remote) (h : trace) (p : prog A)
  : trace * result A :=
  match p with
  | Ret a => ([], Ok a)
  | Raise e => ([], Err e)
  | Call rq k =>
      let o := r h rq in
      let '(t, res) := run r (h ++ [(rq, o)]) (k o) in
      ((rq, o) :: t, res)
  end.

(** ** What the three scripts share *)

Definition ROLES_URL : string :=
  "https://api-account-os.hoyoverse.com/account/binding/api/" ++
  "getUserGameRolesByCookieToken".

Definition CDKEY_API_URL : string :=
  "https://sg-hk4e-api.hoyoverse.com/common/apicdkey/api/webExchangeCdkey".

Definition regions : list string := ["os_usa"; "os_euro"; "os_asia"; "os_cht"].

(** The literal dict of the [return] statement of the redemption check. *)
Definition status_table : dict json string :=
  [ (JInt 0, "success");
    (JInt (-2001), "expired");
    (JInt (-2003), "invalid");
    (JInt (-2017), "already in use") ].

Definition roles_params (region : string) : list (string * json) :=
  [ ("lang", JStr "en");
    ("region", JStr region);
    ("game_biz", JStr "hk4e_global");
    ("sLangKey", JStr "en-us") ].

Definition cdkey_params (uid : json) (cdkey region : string) (game_biz : json)
  : list (string * json) :=
  [ ("uid", uid);
    ("region", JStr region);
    ("lang", JStr "en");
    ("cdkey", JStr cdkey);
    ("game_biz", game_biz);
    ("sLangKey", JStr "en-us") ].

(** ** cdkey.py *)
Module Cdkey.

Definition URL : string := CDKEY_API_URL.

Definition cdkey_request (uid : json) (cdkey cookie region : string)
    (game_biz_parameter : json) : request :=
  mk_request URL (cdkey_params uid cdkey region game_biz_parameter)
    [("Cookie", cookie)] 1.

Definition roles_request (cookie region : string) : request :=
  mk_request ROLES_URL (roles_params region) [("Cookie", cookie)] 1.

Definition get_cdkey_info (uid : json) (cdkey cookie region : string)
    (game_biz_parameter : json) : prog string :=
  cdkey_info <-
    get_json (cdkey_request uid cdkey cookie region game_biz_parameter) ;;
  retcode <- lift (getitem cdkey_info "retcode") ;;
  lift (dict_get status_table retcode "unknown").

Fixpoint main_loop (cdkey cookie : string) (rs : list string)
  : prog (option string) :=
  match rs with
  | [] => Ret None
  | region :: rest =>
      response <- get_json (roles_request cookie region) ;;
      data <- lift (getitem response "data") ;;
      user_game_roles_data <- lift (getitem data "list") ;;
      if truthy user_game_roles_data then
        first_user_game_role <- lift (getitem0 user_game_roles_data) ;;
        game_uid <- lift (getitem first_user_game_role "game_uid") ;;
        game_biz <- lift (getitem first_user_game_role "game_biz") ;;
        cdkey_info <- get_cdkey_info game_uid cdkey cookie region game_biz ;;
        Ret (Some cdkey_info)
      else main_loop cdkey cookie rest
  end.

Definition main (cdkey cookie : string) : prog (option string) :=
  main_loop cdkey cookie regions.

End Cdkey.

(** ** cd_key_retrieval.py *)
Module CdKeyRetrieval.

Definition cdkey_request (user_id : json) (cd_key auth_cookie
    target_region : string) (game_biz_parameter : json) : request :=
  mk_request CDKEY_API_URL
    (cdkey_params user_id cd_key target_region game_biz_parameter)
    [("Cookie", auth_cookie)] 1.

Definition roles_request (auth_cookie target_region : string) : request :=
  mk_request ROLES_URL (roles_params target_region)
    [("Cookie", auth_cookie)] 1.

Definition get_cdkey_status (user_id : json) (cd_key auth_cookie
    target_region : string) (game_biz_parameter : json) : prog string :=
  cd_key_info <-
    get_json (cdkey_request user_id cd_key auth_cookie target_region
                game_biz_parameter) ;;
  retcode <- lift (getitem cd_key_info "retcode") ;;
  lift (dict_get status_table retcode "unknown").

Fixpoint main_loop (cd_key auth_cookie : string) (rs : list string)
  : prog (option string) :=
  match rs with
  | [] => Ret None
  | target_region :: rest =>
      response <- get_json (roles_request auth_cookie target_region) ;;
      data <- lift (getitem response "data") ;;
      if negb (truthy data) then main_loop cd_key auth_cookie rest
      else
        user_game_roles_data <- lift (getitem data "list") ;;
        if truthy user_game_roles_data then
          first_user_game_role <- lift (getitem0 user_game_roles_data) ;;
          game_uid <- lift (getitem first_user_game_role "game_uid") ;;
          game_biz <- lift (getitem first_user_game_role "game_biz") ;;
          cd_key_status <-
            get_cdkey_status game_uid cd_key auth_cookie target_region
              game_biz ;;
          Ret (Some cd_key_status)
        else main_loop cd_key auth_cookie rest
  end.

Definition main (cd_key auth_cookie : string) : prog (option string) :=
  main_loop cd_key auth_cookie regions.

End CdKeyRetrieval.

(** ** cdkey_info_retrieval.py *)
Module CdkeyInfoRetrieval.

(** A [requests.Session]: the headers it adds to every request. *)
Record Session : Type := mk_session { session_headers : list (string * string) }.

Definition session_get (session : Session) (u : string)
    (ps : list (string * json)) (tmo : Z) : prog json :=
  get_json (mk_request u ps (session_headers session) tmo).

Definition cdkey_request (session : Session) (user_id : json)
    (cd_key target_region : string) (game_biz_parameter : json) : request :=
  mk_request CDKEY_API_URL
    (cdkey_params user_id cd_key target_region game_biz_parameter)
    (session_headers session) 1.

Definition roles_request (session : Session) (target_region : string)
  : request :=
  mk_request ROLES_URL (roles_params target_region)
    (session_headers session) 2.

Definition get_cdkey_status (session : Session) (user_id : json)
    (cd_key target_region : string) (game_biz_parameter : json)
  : prog string :=
  cd_key_info <-
    session_get session CDKEY_API_URL
      (cdkey_params user_id cd_key target_region game_biz_parameter) 1 ;;
  retcode <- lift (getitem cd_key_info "retcode") ;;
  lift (dict_get status_table retcode "unknown").

(** region -> account id -> status *)
Definition statuses : Type := dict string (dict json string).

(** [not cd_key_statuses], for [None] or a dict. *)
Definition not_statuses (s : option statuses) : bool :=
  match s with
  | None => true
  | Some [] => true
  | Some (_ :: _) => false
  end.

(** Lines 135-141: the three statements that record one status. *)
Definition record_status (cd_key_statuses : option statuses)
    (target_region : string) (game_uid : json) (cd_key_status : string)
  : result (option statuses) :=
  let d1 : statuses :=
    if not_statuses cd_key_statuses then []
    else match cd_key_statuses with Some d => d | None => [] end in
  let d2 : statuses :=
    if negb (dict_mem String.eqb target_region d1)
    then dict_set String.eqb target_region [] d1
    else d1 in
  match dict_find String.eqb target_region d2 with
  | None => Err KeyError
  | Some inner =>
      if hashable game_uid then
        Ok (Some (dict_set String.eqb target_region
                    (dict_set py_eqb game_uid cd_key_status inner) d2))
      else Err TypeError
  end.

Fixpoint roles_loop (session : Session) (cd_key target_region : string)
    (roles : list json) (cd_key_statuses : option statuses)
  : prog (option statuses) :=
  match roles with
  | [] => Ret cd_key_statuses
  | user_game_role :: rest =>
      game_uid <- lift (getitem user_game_role "game_uid") ;;
      game_biz <- lift (getitem user_game_role "game_biz") ;;
      cd_key_status <-
        get_cdkey_status session game_uid cd_key target_region game_biz ;;
      cd_key_statuses' <-
        lift (record_status cd_key_statuses target_region game_uid
                cd_key_status) ;;
      roles_loop session cd_key target_region rest cd_key_statuses'
  end.

Fixpoint regions_loop (session : Session) (cd_key : string)
    (rs : list string) (cd_key_statuses : option statuses)
  : prog (option statuses) :=
  match rs with
  | [] => Ret cd_key_statuses
  | target_region :: rest =>
      response <-
        session_get session ROLES_URL (roles_params target_region) 2 ;;
      data <- lift (getitem response "data") ;;
      if negb (truthy data) then
        regions_loop session cd_key rest cd_key_statuses
      else
        user_game_roles_data <- lift (getitem data "list") ;;
        roles <- lift (iter user_game_roles_data) ;;
        cd_key_statuses' <-
          roles_loop session cd_key target_region roles cd_key_statuses ;;
        regions_loop session cd_key rest cd_key_statuses'
  end.

Definition main (cd_key auth_cookie : string) : prog (option statuses) :=
  let cd_key_statuses := None in
  let session := mk_session [("Cookie", auth_cookie)] in
  let target_regions := regions in
  regions_loop session cd_key target_regions cd_key_statuses.

End CdkeyInfoRetrieval.

(** ** How the spec reads a response *)

(** The label table of the redemption check, as the spec gives it. *)
Definition spec_label (retcode : Z) : string :=
  if Z.eqb retcode 0 then "success"
  else if Z.eqb retcode (-2001) then "expired"
  else if Z.eqb retcode (-2003) then "invalid"
  else if Z.eqb retcode (-2017) then "already in use"
  else "unknown".

(** The data payload is there and is falsy ([null], [{}], ...). *)
Definition absent_data (response : json) : bool :=
  match getitem response "data" with
  | inr d => negb (truthy d)
  | inl _ => false
  end.

(** The payload carries a [list] entry and it is falsy ([[]], [null]). *)
Definition empty_role_list (response : json) : bool :=
  match getitem response "data" with
  | inr d =>
      match getitem d "list" with
      | inr l => negb (truthy l)
      | inl _ => false
      end
  | inl _ => false
  end.

(** The first record of a non-empty role list. *)
Definition first_role (response : json) : option json :=
  match getitem response "data" with
  | inr d =>
      match getitem d "list" with
      | inr (JArr (x :: _)) => Some x
      | _ => None
      end
  | inl _ => None
  end.

(** Role Lookup of the spec: the records of a region, none when the data
    payload is absent. *)
Definition lookup_roles (response : json) : option (list json) :=
  match getitem response "data" with
  | inr d =>
      if truthy d then
        match getitem d "list" with
        | inr l => match iter l with inr rs => Some rs | inl _ => None end
        | inl _ => None
        end
      else Some []
  | inl _ => None
  end.

(** The account id and the game-business tag of a role record. *)
Definition account_ref (role : json) : option (json * json) :=
  match getitem role "game_uid", getitem role "game_biz" with
  | inr u, inr b => Some (u, b)
  | _, _ => None
  end.

(** [r] gives [o] to [rq] whatever came before. *)
Definition answers (r : remote) (rq : request) (o : outcome) : Prop :=
  forall h, r h rq = o.

(** The exception a failed call raises. *)
Definition failure_exn (o : outcome) : option exn :=
  match o with
  | NetworkFailure => Some RequestException
  | MalformedBody => Some JSONDecodeError
  | Body _ => None
  end.

(** Nothing between a failed call and the caller: every continuation
    re-raises the failure of its call. *)
Inductive propagates {A : Type} : prog A -> Prop :=
| propagates_Ret (a : A) : propagates (Ret a)
| propagates_Raise (e : exn) : propagates (Raise e)
| propagates_Call (rq : request) (k : outcome -> prog A) :
    k NetworkFailure = Raise RequestException ->
    k MalformedBody = Raise JSONDecodeError ->
    (forall j, propagates (k (Body j))) ->
    propagates (Call rq k).

Definition is_redemption (rq : request) : bool :=
  String.eqb (url rq) CDKEY_API_URL.

Definition is_role_lookup (rq : request) : bool :=
  String.eqb (url rq) ROLES_URL.

(** The redemption requests of a run, in the order they were sent. *)
Definition redemption_calls (t : trace) : list request :=
  filter is_redemption (map fst t).

(** No record to visit: the data payload is absent or its list is empty. *)
Definition no_accounts (response : json) : bool :=
  match lookup_roles response with
  | Some [] => true
  | _ => false
  end.

(** The role lookups of the regions [rs], each answered by [roles_of]. *)
Definition lookups (rq_of : string -> request) (roles_of : string -> json)
    (rs : list string) : trace :=
  map (fun s => (rq_of s, Body (roles_of s))) rs.

Definition param (k : string) (rq : request) : option json :=
  assoc k (params rq).

Definition region_of (rq : request) : option string :=
  match param "region" rq with
  | Some (JStr s) => Some s
  | _ => None
  end.

(** The accounts among the role records of a region: region, account id,
    game-business tag. *)
Definition account_refs (region : string) (recs : list json)
  : list (string * json * json) :=
  flat_map
    (fun role =>
       match account_ref role with
       | Some (u, b) => [(region, u, b)]
       | None => []
       end) recs.

(** The accounts that the role lookups of [t] returned, one per role
    record, in the order the records came. *)
Definition discovered (t : trace) : list (string * json * json) :=
  flat_map
    (fun ev : event =>
       match ev with
       | (rq, Body j) =>
           if is_role_lookup rq then
             match region_of rq, lookup_roles j with
             | Some region, Some recs => account_refs region recs
             | _, _ => []
             end
           else []
       | _ => []
       end) t.

(** The redemption request the exhaustive driver sends for an account. *)
Definition redemption_for (session : CdkeyInfoRetrieval.Session)
    (cd_key : string) (p : string * json * json) : request :=
  let '(region, u, b) := p in
  CdkeyInfoRetrieval.cdkey_request session u cd_key region b.

Definition is_account (region : string) (uid : json)
    (p : string * json * json) : bool :=
  let '(region', u, _) := p in String.eqb region' region && py_eqb u uid.

(** How many role records of [t] carry account [uid] of [region]. *)
Definition records_for (region : string) (uid : json) (t : trace) : nat :=
  List.length (filter (is_account region uid) (discovered t)).

(** [rq] is about account [uid] of [region]. *)
Definition for_account (region : string) (uid : json) (rq : request) : bool :=
  match param "region" rq, param "uid" rq with
  | Some (JStr s), Some u => String.eqb s region && py_eqb u uid
  | _, _ => false
  end.

(** How many redemption calls of [t] are about account [uid] of [region]. *)
Definition calls_for (region : string) (uid : json) (t : trace) : nat :=
  List.length (filter (for_account region uid) (redemption_calls t)).


(** The status [status] recorded for account [uid] of [region] is the label
    of the retcode that a redemption call of [t] for that account got. *)
Definition originates (t : trace) (region : string) (uid : json)
    (status : string) : Prop :=
  exists rq j u c,
    In (rq, Body j) t /\
    is_redemption rq = true /\
    param "region" rq = Some (JStr region) /\
    param "uid" rq = Some u /\
    py_eqb uid u = true /\
    getitem j "retcode" = Ok c /\
    dict_get status_table c "unknown" = Ok status.

Definition entries_originate (t : trace) (d : CdkeyInfoRetrieval.statuses)
  : Prop :=
  forall region inner uid status,
    In (region, inner) d ->
    In (uid, status) inner ->
    originates t region uid status.

(** Every status of the driver's output comes from a call of the run. *)
Definition table_originates (t : trace)
    (tbl : option CdkeyInfoRetrieval.statuses) : Prop :=
  match tbl with
  | Some d => entries_originate t d
  | None => True
  end.

(** Every request that [p] can send satisfies [P]. *)
Inductive sends {A : Type} (P : request -> Prop) : prog A -> Prop :=
| sends_Ret (a : A) : sends P (Ret a)
| sends_Raise (e : exn) : sends P (Raise e)
| sends_Call (rq : request) (k : outcome -> prog A) :
    P rq -> (forall o, sends P (k o)) -> sends P (Call rq k).

(** A request to one of the two endpoints, authenticated by [cookie] in
    its Cookie header and by nothing else. *)
Definition authenticated (cookie : string) (rq : request) : Prop :=
  headers rq = [("Cookie", cookie)] /\
  (url rq = ROLES_URL \/ url rq = CDKEY_API_URL).

(** How a run of an early-return driver can end: with a status, after one
    redemption call that is the last exchange and whose retcode the status
    labels; with [None], after no redemption call; or with an exception,
    after one redemption call at most. *)
Definition early_return_outcome (t : trace) (res : result (option string))
  : Prop :=
  match res with
  | inr (Some s) =>
      exists pre rq j c,
        t = pre ++ [(rq, Body j)] /\
        redemption_calls pre = [] /\
        is_redemption rq = true /\
        getitem j "retcode" = Ok c /\
        dict_get status_table c "unknown" = Ok s
  | inr None => redemption_calls t = []
  | inl _ => (List.length (redemption_calls t) <= 1)%nat
  end.

(** The account service never answers a role lookup with a falsy data
    payload. *)
Definition never_absent (r : remote) : Prop :=
  forall h rq j d,
    is_role_lookup rq = true ->
    r h rq = Body j ->
    getitem j "data" = Ok d ->
    truthy d = true.

(** The shape of a table the exhaustive driver builds: [None], or a
    non-empty dict whose keys are distinct regions of [allowed], each with
    a non-empty dict of statuses. *)
Definition well_shaped (allowed : list string)
    (tbl : option CdkeyInfoRetrieval.statuses) : Prop :=
  match tbl with
  | None => True
  | Some d =>
      d <> [] /\
      NoDup (map fst d) /\
      (forall region inner,
         In (region, inner) d -> In region allowed /\ inner <> [])
  end.

(** [tbl[region][uid]] is there. *)
Definition has_status (tbl : option CdkeyInfoRetrieval.statuses)
    (region : string) (uid : json) : Prop :=
  exists d inner s,
    tbl = Some d /\
    dict_find String.eqb region d = Some inner /\
    dict_find py_eqb uid inner = Some s.

(** What the redemption check makes of a retcode that is not a number
    with a fraction or an exponent: Python finds [False] under the key [0],
    finds nothing for [True], [None] and strings, and refuses to look up a
    list or a dict. *)
Definition label_of_retcode (c : json) : result string :=
  match c with
  | JInt z => Ok (spec_label z)
  | JBool false => Ok "success"
  | JBool true | JNull | JStr _ => Ok "unknown"
  | JArr _ | JObj _ => Err TypeError
  end.

(** ** Demonstration remotes *)

(** A server that lists [roles region] for a region and answers a
    redemption of account [uid] with the code [retcode uid]. *)
Definition demo_remote (roles : string -> json) (retcode : json -> json)
  : remote :=
  fun _ rq =>
    if is_role_lookup rq then
      match param "region" rq with
      | Some (JStr s) => Body (roles s)
      | _ => MalformedBody
      end
    else
      match param "uid" rq with
      | Some u => Body (JObj [("retcode", retcode u)])
      | None => MalformedBody
      end.

Definition role (uid : Z) : json :=
  JObj [("game_uid", JInt uid); ("game_biz", JStr "hk4e_global")].

Definition roles_body (l : list json) : json :=
  JObj [("retcode", JInt 0); ("data", JObj [("list", JArr l)])].

(** What the account service answers to a cookie it does not accept. *)
Definition no_data_body : json :=
  JObj [("retcode", JInt (-100)); ("data", JNull)].

(** Accounts 7 and 8 in Europe, none elsewhere. *)
Definition euro_roles (region : string) : json :=
  if String.eqb region "os_euro" then roles_body [role 7; role 8]
  else roles_body [].

(** Accounts 7 and 8 in America, none elsewhere. *)
Definition usa_roles (region : string) : json :=
  if String.eqb region "os_usa" then roles_body [role 7; role 8]
  else roles_body [].

(** Account 7 redeems, any other account finds the code used. *)
Definition first_come (uid : json) : json :=
  if py_eqb uid (JInt 7) then JInt 0 else JInt (-2017).

(** The role list of America names account 7 twice. *)
Definition twice_roles (region : string) : json :=
  if String.eqb region "os_usa" then roles_body [role 7; role 7]
  else roles_body [].

(** The account service has no data for America and lists accounts 7 and
    8 in Europe. *)
Definition euro_roles_after_no_data (region : string) : json :=
  if String.eqb region "os_usa" then no_data_body else euro_roles region.

(** Every call fails in transit. *)
Definition offline : remote := fun _ _ => NetworkFailure.

(** ** The monad *)

Lemma run_bind {A B : Type} (r : remote) (p : prog A) (f : A -> prog B) :
  forall h,
    run r h (bind p f) =
    match run r h p with
    | (t1, inl e) => (t1, inl e)
    | (t1, inr a) =>
        let '(t2, res) := run r (h ++ t1) (f a) in (t1 ++ t2, res)
    end.
Proof.
  induction p as [a | e | rq k IH]; intros h; simpl.
  - rewrite app_nil_r. destruct (run r h (f a)); reflexivity.
  - reflexivity.
  - rewrite IH.
    destruct (run r (h ++ [(rq, r h rq)]) (k (r h rq))) as [t1 [e | a]].
    + reflexivity.
    + replace ((h ++ [(rq, r h rq)]) ++ t1) with (h ++ (rq, r h rq) :: t1)
        by (rewrite <- app_assoc; reflexivity).
      simpl.
      destruct (run r (h ++ (rq, r h rq) :: t1) (f a)); reflexivity.
Qed.

Lemma run_get_json {B : Type} (r : remote) (h : trace) (rq : request)
    (j : json) (f : json -> prog B) :
  r h rq = Body j ->
  run r h (bind (get_json rq) f) =
  let '(t, res) := run r (h ++ [(rq, Body j)]) (f j) in
  ((rq, Body j) :: t, res).
Proof. intros H. simpl. rewrite H. reflexivity. Qed.

Lemma run_lift {A B : Type} (r : remote) (h : trace) (x : result A)
    (f : A -> prog B) :
  run r h (bind (lift x) f) =
  match x with
  | inl e => ([], inl e)
  | inr a => run r h (f a)
  end.
Proof. destruct x; reflexivity. Qed.

Lemma propagates_bind {A B : Type} (p : prog A) (f : A -> prog B) :
  propagates p -> (forall a, propagates (f a)) -> propagates (bind p f).
Proof.
  intros Hp Hf. induction Hp as [a | e | rq k Hn Hm _ IH]; simpl.
  - apply Hf.
  - constructor.
  - constructor.
    + rewrite Hn. reflexivity.
    + rewrite Hm. reflexivity.
    + exact IH.
Qed.

Lemma propagates_lift {A : Type} (x : result A) : propagates (lift x).
Proof. destruct x; constructor. Qed.

Lemma propagates_get_json (rq : request) : propagates (get_json rq).
Proof. constructor; try reflexivity. intros j. constructor. Qed.

Create HintDb propagation.
#[local] Hint Resolve propagates_lift propagates_get_json : propagation.
#[local] Hint Constructors propagates : propagation.

Ltac propagation :=
  repeat first
    [ apply propagates_bind; [ auto with propagation | intro ]
    | progress auto with propagation
    | match goal with |- propagates (if ?b then _ else _) => destruct b end ].

(** A failed call ends the run with its exception. *)
Lemma propagates_run {A : Type} (p : prog A) :
  propagates p ->
  forall r h t res pre rq o post e,
    run r h p = (t, res) ->
    t = pre ++ (rq, o) :: post ->
    failure_exn o = Some e ->
    post = [] /\ res = Err e.
Proof.
  induction 1 as [a | e0 | rq0 k Hn Hm _ IH];
    intros r h t res pre rq o post e Hrun Ht Ho; simpl in Hrun.
  - injection Hrun as Et _. rewrite Ht in Et. destruct pre; discriminate.
  - injection Hrun as Et _. rewrite Ht in Et. destruct pre; discriminate.
  - destruct (r h rq0) as [ | | j] eqn:Hr.
    + rewrite Hn in Hrun. simpl in Hrun. injection Hrun as Et Er.
      rewrite Ht in Et.
      destruct pre as [ | ev [ | ev' pre']]; try discriminate.
      injection Et as Erq Eo Ep. subst. simpl in Ho.
      injection Ho as Ho. subst. auto.
    + rewrite Hm in Hrun. simpl in Hrun. injection Hrun as Et Er.
      rewrite Ht in Et.
      destruct pre as [ | ev [ | ev' pre']]; try discriminate.
      injection Et as Erq Eo Ep. subst. simpl in Ho.
      injection Ho as Ho. subst. auto.
    + destruct (run r (h ++ [(rq0, Body j)]) (k (Body j))) as [t' res'] eqn:Hk.
      injection Hrun as Et Er. rewrite Ht in Et.
      destruct pre as [ | ev pre'].
      * injection Et as Erq Eo Ep. subst o. discriminate.
      * injection Et as Eev Et'. subst res'.
        eapply (IH j r _ t' res pre' rq o post e); eauto.
Qed.

Lemma status_table_label (z : Z) :
  dict_get status_table (JInt z) "unknown" = Ok (spec_label z).
Proof.
  unfold spec_label.
  destruct (Z.eqb_spec z 0) as [-> | N0]; [reflexivity | ].
  destruct (Z.eqb_spec z (-2001)) as [-> | N1]; [reflexivity | ].
  destruct (Z.eqb_spec z (-2003)) as [-> | N2]; [reflexivity | ].
  destruct (Z.eqb_spec z (-2017)) as [-> | N3]; [reflexivity | ].
  unfold dict_get, status_table, hashable, dict_find, py_eqb.
  destruct (Z.eqb_spec 0 z); [congruence | ].
  destruct (Z.eqb_spec (-2001) z); [congruence | ].
  destruct (Z.eqb_spec (-2003) z); [congruence | ].
  destruct (Z.eqb_spec (-2017) z); [congruence | ].
  reflexivity.
Qed.

Lemma Cdkey_main_propagates (cdkey cookie : string) :
  propagates (Cdkey.main cdkey cookie).
Proof.
  unfold Cdkey.main. induction regions as [ | region rest IH];
    cbn [Cdkey.main_loop].
  - constructor.
  - unfold Cdkey.get_cdkey_info. propagation.
Qed.

Lemma CdKeyRetrieval_main_propagates (cd_key auth_cookie : string) :
  propagates (CdKeyRetrieval.main cd_key auth_cookie).
Proof.
  unfold CdKeyRetrieval.main. induction regions as [ | region rest IH];
    cbn [CdKeyRetrieval.main_loop].
  - constructor.
  - unfold CdKeyRetrieval.get_cdkey_status. propagation.
Qed.

Lemma roles_loop_propagates (session : CdkeyInfoRetrieval.Session)
    (cd_key target_region : string) (roles : list json) :
  forall acc,
    propagates
      (CdkeyInfoRetrieval.roles_loop session cd_key target_region roles acc).
Proof.
  induction roles as [ | role rest IH]; intros acc;
    cbn [CdkeyInfoRetrieval.roles_loop].
  - constructor.
  - unfold CdkeyInfoRetrieval.get_cdkey_status,
      CdkeyInfoRetrieval.session_get.
    propagation.
Qed.

Lemma regions_loop_propagates (session : CdkeyInfoRetrieval.Session)
    (cd_key : string) (rs : list string) :
  forall acc,
    propagates (CdkeyInfoRetrieval.regions_loop session cd_key rs acc).
Proof.
  induction rs as [ | region rest IH]; intros acc;
    cbn [CdkeyInfoRetrieval.regions_loop].
  - constructor.
  - unfold CdkeyInfoRetrieval.session_get.
    propagation; try apply IH; apply roles_loop_propagates.
Qed.

Lemma account_ref_inv (role u b : json) :
  account_ref role = Some (u, b) ->
  getitem role "game_uid" = inr u /\ getitem role "game_biz" = inr b.
Proof.
  unfold account_ref. intros H.
  destruct (getitem role "game_uid"); [discriminate | ].
  destruct (getitem role "game_biz"); [discriminate | ].
  injection H as -> ->. split; reflexivity.
Qed.

(** ** The redemption check *)

Lemma get_cdkey_info_run (r : remote) (h : trace) (uid game_biz : json)
    (cdkey cookie region : string) (j c : json) (s : string) :
  r h (Cdkey.cdkey_request uid cdkey cookie region game_biz) = Body j ->
  getitem j "retcode" = Ok c ->
  dict_get status_table c "unknown" = Ok s ->
  run r h (Cdkey.get_cdkey_info uid cdkey cookie region game_biz) =
  ([(Cdkey.cdkey_request uid cdkey cookie region game_biz, Body j)], Ok s).
Proof.
  intros Hr Hc Hs. unfold Cdkey.get_cdkey_info.
  erewrite run_get_json by exact Hr.
  rewrite run_lift, Hc. cbn [bind lift run].
  rewrite Hs. reflexivity.
Qed.

Lemma get_cdkey_status_run (r : remote) (h : trace) (uid game_biz : json)
    (cdkey cookie region : string) (j c : json) (s : string) :
  r h (CdKeyRetrieval.cdkey_request uid cdkey cookie region game_biz)
    = Body j ->
  getitem j "retcode" = Ok c ->
  dict_get status_table c "unknown" = Ok s ->
  run r h (CdKeyRetrieval.get_cdkey_status uid cdkey cookie region game_biz) =
  ([(CdKeyRetrieval.cdkey_request uid cdkey cookie region game_biz, Body j)],
   Ok s).
Proof. apply get_cdkey_info_run. Qed.

Lemma session_get_cdkey_status_run (r : remote) (h : trace)
    (session : CdkeyInfoRetrieval.Session) (uid game_biz : json)
    (cdkey region : string) (j c : json) (s : string) :
  r h (CdkeyInfoRetrieval.cdkey_request session uid cdkey region game_biz)
    = Body j ->
  getitem j "retcode" = Ok c ->
  dict_get status_table c "unknown" = Ok s ->
  run r h
    (CdkeyInfoRetrieval.get_cdkey_status session uid cdkey region game_biz) =
  ([(CdkeyInfoRetrieval.cdkey_request session uid cdkey region game_biz,
     Body j)],
   Ok s).
Proof.
  intros Hr Hc Hs.
  unfold CdkeyInfoRetrieval.get_cdkey_status, CdkeyInfoRetrieval.session_get.
  erewrite run_get_json by exact Hr.
  rewrite run_lift, Hc. cbn [bind lift run].
  rewrite Hs. reflexivity.
Qed.

(** ** Regions without accounts *)

Section Skipping.
Context {A : Type}.
Variable loop : list string -> prog A.
Variable rq_of : string -> request.
Variable skip : json -> bool.

Hypothesis loop_skip :
  forall (r : remote) h s rest j,
    r h (rq_of s) = Body j ->
    skip j = true ->
    run r h (loop (s :: rest)) =
    let '(t, res) := run r (h ++ [(rq_of s, Body j)]) (loop rest) in
    ((rq_of s, Body j) :: t, res).

Lemma loop_skips (r : remote) (roles_of : string -> json) :
  forall skipped rest h,
    (forall s, In s skipped -> answers r (rq_of s) (Body (roles_of s))) ->
    (forall s, In s skipped -> skip (roles_of s) = true) ->
    run r h (loop (skipped ++ rest)) =
    let '(t, res) :=
      run r (h ++ lookups rq_of roles_of skipped) (loop rest) in
    (lookups rq_of roles_of skipped ++ t, res).
Proof.
  induction skipped as [ | s skipped IH]; intros rest h Hans Hskip.
  - simpl. rewrite app_nil_r. destruct (run r h (loop rest)); reflexivity.
  - cbn [app lookups map].
    rewrite (loop_skip r h s (skipped ++ rest) (roles_of s)).
    + rewrite IH.
      * fold (lookups rq_of roles_of skipped).
        rewrite <- app_assoc. cbn [app].
        destruct (run r _ (loop rest)); reflexivity.
      * intros s' Hin. apply Hans. right. exact Hin.
      * intros s' Hin. apply Hskip. right. exact Hin.
    + apply Hans. left. reflexivity.
    + apply Hskip. left. reflexivity.
Qed.
End Skipping.

Lemma Cdkey_loop_skip (cdkey cookie : string) :
  forall (r : remote) h s rest j,
    r h (Cdkey.roles_request cookie s) = Body j ->
    empty_role_list j = true ->
    run r h (Cdkey.main_loop cdkey cookie (s :: rest)) =
    let '(t, res) :=
      run r (h ++ [(Cdkey.roles_request cookie s, Body j)])
        (Cdkey.main_loop cdkey cookie rest) in
    ((Cdkey.roles_request cookie s, Body j) :: t, res).
Proof.
  intros r h s rest j Hr He. cbn [Cdkey.main_loop].
  erewrite run_get_json by exact Hr.
  unfold empty_role_list in He.
  destruct (getitem j "data") as [ | d]; [discriminate | ].
  rewrite run_lift.
  destruct (getitem d "list") as [ | l]; [discriminate | ].
  rewrite run_lift.
  apply negb_true_iff in He. rewrite He. reflexivity.
Qed.

Lemma CdKeyRetrieval_loop_skip (cd_key auth_cookie : string) :
  forall (r : remote) h s rest j,
    r h (CdKeyRetrieval.roles_request auth_cookie s) = Body j ->
    absent_data j || empty_role_list j = true ->
    run r h (CdKeyRetrieval.main_loop cd_key auth_cookie (s :: rest)) =
    let '(t, res) :=
      run r (h ++ [(CdKeyRetrieval.roles_request auth_cookie s, Body j)])
        (CdKeyRetrieval.main_loop cd_key auth_cookie rest) in
    ((CdKeyRetrieval.roles_request auth_cookie s, Body j) :: t, res).
Proof.
  intros r h s rest j Hr He. cbn [CdKeyRetrieval.main_loop].
  erewrite run_get_json by exact Hr.
  unfold absent_data, empty_role_list in He.
  destruct (getitem j "data") as [ | d]; [discriminate | ].
  rewrite run_lift.
  destruct (truthy d); cbn [negb orb] in *; [ | reflexivity ].
  destruct (getitem d "list") as [ | l]; [discriminate | ].
  rewrite run_lift.
  apply negb_true_iff in He. rewrite He. reflexivity.
Qed.

Lemma Cdkey_loop_hit (cdkey cookie : string) :
  forall (r : remote) h region rest resp first uid biz jr c s,
    r h (Cdkey.roles_request cookie region) = Body resp ->
    first_role resp = Some first ->
    account_ref first = Some (uid, biz) ->
    r (h ++ [(Cdkey.roles_request cookie region, Body resp)])
      (Cdkey.cdkey_request uid cdkey cookie region biz) = Body jr ->
    getitem jr "retcode" = Ok c ->
    dict_get status_table c "unknown" = Ok s ->
    run r h (Cdkey.main_loop cdkey cookie (region :: rest)) =
    ([(Cdkey.roles_request cookie region, Body resp);
      (Cdkey.cdkey_request uid cdkey cookie region biz, Body jr)],
     Ok (Some s)).
Proof.
  intros r h region rest resp first uid biz jr c s Hr Hf Ha Hq Hc Hs.
  cbn [Cdkey.main_loop].
  erewrite run_get_json by exact Hr.
  unfold first_role in Hf.
  destruct (getitem resp "data") as [ | d]; [discriminate | ].
  rewrite run_lift.
  destruct (getitem d "list") as [ | [ | | | | [ | x xs] | ]];
    try discriminate.
  injection Hf as ->. rewrite run_lift. cbn [truthy getitem0].
  destruct (account_ref_inv _ _ _ Ha) as [Hu Hb].
  rewrite run_lift, run_lift, Hu, run_lift, Hb, run_bind.
  rewrite (get_cdkey_info_run _ _ _ _ _ _ _ _ _ _ Hq Hc Hs).
  reflexivity.
Qed.

Lemma CdKeyRetrieval_loop_hit (cd_key auth_cookie : string) :
  forall (r : remote) h region rest resp first uid biz jr c s,
    r h (CdKeyRetrieval.roles_request auth_cookie region) = Body resp ->
    first_role resp = Some first ->
    account_ref first = Some (uid, biz) ->
    r (h ++ [(CdKeyRetrieval.roles_request auth_cookie region, Body resp)])
      (CdKeyRetrieval.cdkey_request uid cd_key auth_cookie region biz)
      = Body jr ->
    getitem jr "retcode" = Ok c ->
    dict_get status_table c "unknown" = Ok s ->
    run r h (CdKeyRetrieval.main_loop cd_key auth_cookie (region :: rest)) =
    ([(CdKeyRetrieval.roles_request auth_cookie region, Body resp);
      (CdKeyRetrieval.cdkey_request uid cd_key auth_cookie region biz,
       Body jr)],
     Ok (Some s)).
Proof.
  intros r h region rest resp first uid biz jr c s Hr Hf Ha Hq Hc Hs.
  cbn [CdKeyRetrieval.main_loop].
  erewrite run_get_json by exact Hr.
  unfold first_role in Hf.
  destruct (getitem resp "data") as [ | d] eqn:Hd; [discriminate | ].
  rewrite run_lift.
  destruct (getitem d "list") as [ | [ | | | | [ | x xs] | ]] eqn:Hl;
    try discriminate.
  injection Hf as ->.
  assert (Ht : truthy d = true).
  { destruct d as [ | | | | | [ | kv kvs]]; try discriminate; reflexivity. }
  rewrite Ht. cbn [negb]. rewrite run_lift. cbn [truthy getitem0].
  destruct (account_ref_inv _ _ _ Ha) as [Hu Hb].
  rewrite run_lift, run_lift, Hu, run_lift, Hb, run_bind.
  rewrite (get_cdkey_status_run _ _ _ _ _ _ _ _ _ _ Hq Hc Hs).
  reflexivity.
Qed.

(** ** The exhaustive driver, step by step *)

Lemma regions_loop_step (session : CdkeyInfoRetrieval.Session)
    (cd_key : string) :
  forall (r : remote) h region rest acc j recs,
    r h (CdkeyInfoRetrieval.roles_request session region) = Body j ->
    lookup_roles j = Some recs ->
    run r h (CdkeyInfoRetrieval.regions_loop session cd_key (region :: rest)
               acc) =
    let ev := (CdkeyInfoRetrieval.roles_request session region, Body j) in
    match
      run r (h ++ [ev])
        (CdkeyInfoRetrieval.roles_loop session cd_key region recs acc)
    with
    | (t1, inl e) => (ev :: t1, inl e)
    | (t1, inr acc') =>
        let '(t2, res) :=
          run r (h ++ ev :: t1)
            (CdkeyInfoRetrieval.regions_loop session cd_key rest acc') in
        (ev :: t1 ++ t2, res)
    end.
Proof.
  intros r h region rest acc j recs Hr Hl.
  cbn [CdkeyInfoRetrieval.regions_loop].
  unfold CdkeyInfoRetrieval.session_get.
  erewrite run_get_json by exact Hr.
  unfold lookup_roles in Hl.
  destruct (getitem j "data") as [ | d]; [discriminate | ].
  rewrite run_lift.
  destruct (truthy d); cbn [negb].
  - destruct (getitem d "list") as [ | l]; [discriminate | ].
    rewrite run_lift.
    destruct (iter l) as [ | rs]; [discriminate | ].
    injection Hl as ->. rewrite run_lift, run_bind. cbv zeta.
    destruct (run r _ (CdkeyInfoRetrieval.roles_loop _ _ _ _ _))
      as [t1 [e | acc']].
    + reflexivity.
    + rewrite <- app_assoc. cbn [app].
      destruct (run r _ (CdkeyInfoRetrieval.regions_loop _ _ _ _));
        reflexivity.
  - injection Hl as <-. cbn [CdkeyInfoRetrieval.roles_loop run]. cbv zeta.
    cbn [app].
    destruct (run r _ (CdkeyInfoRetrieval.regions_loop _ _ _ _));
      reflexivity.
Qed.

Lemma regions_loop_skip (session : CdkeyInfoRetrieval.Session)
    (cd_key : string) (acc : option CdkeyInfoRetrieval.statuses) :
  forall (r : remote) h s rest j,
    r h (CdkeyInfoRetrieval.roles_request session s) = Body j ->
    no_accounts j = true ->
    run r h (CdkeyInfoRetrieval.regions_loop session cd_key (s :: rest) acc) =
    let '(t, res) :=
      run r (h ++ [(CdkeyInfoRetrieval.roles_request session s, Body j)])
        (CdkeyInfoRetrieval.regions_loop session cd_key rest acc) in
    ((CdkeyInfoRetrieval.roles_request session s, Body j) :: t, res).
Proof.
  intros r h s rest j Hr Hn. unfold no_accounts in Hn.
  destruct (lookup_roles j) as [[ | x xs] | ] eqn:Hl; try discriminate.
  rewrite (regions_loop_step session cd_key r h s rest acc j [] Hr Hl).
  cbn [CdkeyInfoRetrieval.roles_loop run]. cbv zeta. cbn [app].
  reflexivity.
Qed.

Lemma roles_loop_step (session : CdkeyInfoRetrieval.Session)
    (cd_key region : string) :
  forall (r : remote) h role rest acc u b j c s acc',
    account_ref role = Some (u, b) ->
    r h (CdkeyInfoRetrieval.cdkey_request session u cd_key region b)
      = Body j ->
    getitem j "retcode" = Ok c ->
    dict_get status_table c "unknown" = Ok s ->
    CdkeyInfoRetrieval.record_status acc region u s = Ok acc' ->
    run r h (CdkeyInfoRetrieval.roles_loop session cd_key region
               (role :: rest) acc) =
    let ev :=
      (CdkeyInfoRetrieval.cdkey_request session u cd_key region b, Body j) in
    let '(t, res) :=
      run r (h ++ [ev])
        (CdkeyInfoRetrieval.roles_loop session cd_key region rest acc') in
    (ev :: t, res).
Proof.
  intros r h role rest acc u b j c s acc' Ha Hr Hc Hs Hrec.
  cbn [CdkeyInfoRetrieval.roles_loop].
  destruct (account_ref_inv _ _ _ Ha) as [Hu Hb].
  rewrite run_lift, Hu, run_lift, Hb, run_bind.
  rewrite (session_get_cdkey_status_run _ _ _ _ _ _ _ _ _ _ Hr Hc Hs).
  rewrite run_lift, Hrec. cbv zeta.
  destruct (run r _ (CdkeyInfoRetrieval.roles_loop _ _ _ _ _)); reflexivity.
Qed.

(** ** Reading a finished run backwards *)

Lemma run_get_json_inv {B : Type} (r : remote) (h : trace) (rq : request)
    (f : json -> prog B) (t : trace) (b : B) :
  run r h (bind (get_json rq) f) = (t, inr b) ->
  exists j t',
    r h rq = Body j /\
    t = (rq, Body j) :: t' /\
    run r (h ++ [(rq, Body j)]) (f j) = (t', inr b).
Proof.
  cbn [get_json bind run]. intros H.
  destruct (r h rq) as [ | | j] eqn:Hr; cbn [bind run] in H;
    try discriminate.
  destruct (run r (h ++ [(rq, Body j)]) (f j)) as [t' res] eqn:Hk.
  injection H as <- ->. exists j, t'. auto.
Qed.

Lemma session_get_cdkey_status_inv (r : remote) (h : trace)
    (session : CdkeyInfoRetrieval.Session) (uid game_biz : json)
    (cdkey region : string) (t : trace) (s : string) :
  run r h
    (CdkeyInfoRetrieval.get_cdkey_status session uid cdkey region game_biz)
    = (t, inr s) ->
  exists j c,
    r h (CdkeyInfoRetrieval.cdkey_request session uid cdkey region game_biz)
      = Body j /\
    getitem j "retcode" = Ok c /\
    dict_get status_table c "unknown" = Ok s /\
    t = [(CdkeyInfoRetrieval.cdkey_request session uid cdkey region game_biz,
          Body j)].
Proof.
  unfold CdkeyInfoRetrieval.get_cdkey_status, CdkeyInfoRetrieval.session_get.
  intros H. apply run_get_json_inv in H.
  destruct H as (j & t' & Hr & -> & H).
  rewrite run_lift in H.
  destruct (getitem j "retcode") as [ | c] eqn:Hc; [discriminate | ].
  cbn [lift run] in H.
  destruct (dict_get status_table c "unknown") as [ | s'] eqn:Hs;
    cbn [lift run] in H; [discriminate | ].
  injection H as <- <-. exists j, c. auto.
Qed.

Lemma roles_loop_inv (session : CdkeyInfoRetrieval.Session)
    (cd_key region : string) :
  forall (r : remote) h role rest acc t out,
    run r h (CdkeyInfoRetrieval.roles_loop session cd_key region
               (role :: rest) acc) = (t, inr out) ->
    exists u b j c s acc' t',
      account_ref role = Some (u, b) /\
      r h (CdkeyInfoRetrieval.cdkey_request session u cd_key region b)
        = Body j /\
      getitem j "retcode" = Ok c /\
      dict_get status_table c "unknown" = Ok s /\
      CdkeyInfoRetrieval.record_status acc region u s = Ok acc' /\
      t = (CdkeyInfoRetrieval.cdkey_request session u cd_key region b,
           Body j) :: t' /\
      run r
        (h ++ [(CdkeyInfoRetrieval.cdkey_request session u cd_key region b,
                Body j)])
        (CdkeyInfoRetrieval.roles_loop session cd_key region rest acc')
        = (t', inr out).
Proof.
  intros r h role rest acc t out H.
  cbn [CdkeyInfoRetrieval.roles_loop] in H.
  rewrite run_lift in H.
  destruct (getitem role "game_uid") as [ | u] eqn:Hu; [discriminate | ].
  rewrite run_lift in H.
  destruct (getitem role "game_biz") as [ | b] eqn:Hb; [discriminate | ].
  rewrite run_bind in H.
  destruct (run r h (CdkeyInfoRetrieval.get_cdkey_status session u cd_key
                       region b)) as [t1 [e | s]] eqn:Hcall;
    [discriminate | ].
  apply session_get_cdkey_status_inv in Hcall.
  destruct Hcall as (j & c & Hr & Hc & Hs & ->).
  rewrite run_lift in H.
  destruct (CdkeyInfoRetrieval.record_status acc region u s)
    as [ | acc'] eqn:Hrec; [discriminate | ].
  destruct (run r _ (CdkeyInfoRetrieval.roles_loop _ _ _ rest acc'))
    as [t' res] eqn:Hrest.
  injection H as <- ->.
  exists u, b, j, c, s, acc', t'. repeat split; auto.
  unfold account_ref. rewrite Hu, Hb. reflexivity.
Qed.

Lemma regions_loop_inv (session : CdkeyInfoRetrieval.Session)
    (cd_key : string) :
  forall (r : remote) h region rest acc t out,
    run r h (CdkeyInfoRetrieval.regions_loop session cd_key (region :: rest)
               acc) = (t, inr out) ->
    exists j recs t1 acc' t2,
      r h (CdkeyInfoRetrieval.roles_request session region) = Body j /\
      lookup_roles j = Some recs /\
      run r (h ++ [(CdkeyInfoRetrieval.roles_request session region, Body j)])
        (CdkeyInfoRetrieval.roles_loop session cd_key region recs acc)
        = (t1, inr acc') /\
      run r
        (h ++ (CdkeyInfoRetrieval.roles_request session region, Body j) :: t1)
        (CdkeyInfoRetrieval.regions_loop session cd_key rest acc')
        = (t2, inr out) /\
      t = (CdkeyInfoRetrieval.roles_request session region, Body j)
            :: t1 ++ t2.
Proof.
  intros r h region rest acc t out H.
  assert (Hj : exists j,
             r h (CdkeyInfoRetrieval.roles_request session region) = Body j).
  { cbn [CdkeyInfoRetrieval.regions_loop] in H.
    unfold CdkeyInfoRetrieval.session_get in H.
    apply run_get_json_inv in H. destruct H as (j & _ & Hr & _).
    exists j. exact Hr. }
  destruct Hj as [j Hr].
  assert (Hl : exists recs, lookup_roles j = Some recs).
  { cbn [CdkeyInfoRetrieval.regions_loop] in H.
    unfold CdkeyInfoRetrieval.session_get in H.
    erewrite run_get_json in H by exact Hr.
    unfold lookup_roles.
    destruct (getitem j "data") as [ | d]; [discriminate | ].
    rewrite run_lift in H.
    destruct (truthy d); cbn [negb] in H; [ | eauto ].
    destruct (getitem d "list") as [ | l]; [discriminate | ].
    rewrite run_lift in H.
    destruct (iter l) as [ | rs]; [discriminate | eauto ]. }
  destruct Hl as [recs Hl].
  rewrite (regions_loop_step session cd_key r h region rest acc j recs Hr Hl)
    in H.
  cbv zeta in H.
  destruct (run r _ (CdkeyInfoRetrieval.roles_loop _ _ _ recs acc))
    as [t1 [e | acc']] eqn:H1; [discriminate | ].
  destruct (run r _ (CdkeyInfoRetrieval.regions_loop _ _ rest acc'))
    as [t2 res] eqn:H2.
  injection H as <- ->.
  exists j, recs, t1, acc', t2. auto.
Qed.

(** ** Where a recorded status comes from *)

Lemma py_eqb_refl (u : json) : hashable u = true -> py_eqb u u = true.
Proof.
  destruct u as [ | b | z | s | l | kvs]; cbn; intros H;
    try discriminate; try reflexivity.
  - destruct b; reflexivity.
  - apply Z.eqb_refl.
  - apply String.eqb_refl.
Qed.

Lemma In_dict_set {K V : Type} (eqb : K -> K -> bool) (k : K) (v : V) :
  forall d k0 v0,
    In (k0, v0) (dict_set eqb k v d) ->
    In (k0, v0) d \/ (v0 = v /\ (k0 = k \/ eqb k0 k = true)).
Proof.
  induction d as [ | [k' v'] d IH]; intros k0 v0 Hin; cbn in Hin.
  - destruct Hin as [E | []]. injection E as <- <-. right. auto.
  - destruct (eqb k' k) eqn:Ek.
    + destruct Hin as [E | Hin].
      * injection E as <- <-. right. auto.
      * left. right. exact Hin.
    + destruct Hin as [E | Hin].
      * left. left. exact E.
      * destruct (IH _ _ Hin) as [H | H]; [left; right; exact H | right; exact H].
Qed.

Lemma dict_find_In {K V : Type} (eqb : K -> K -> bool) (k : K) :
  forall (d : dict K V) v,
    dict_find eqb k d = Some v -> exists k', In (k', v) d /\ eqb k' k = true.
Proof.
  induction d as [ | [k' v'] d IH]; intros v H; cbn in H; [discriminate | ].
  destruct (eqb k' k) eqn:Ek.
  - injection H as <-. exists k'. split; [left; reflexivity | exact Ek].
  - destruct (IH _ H) as (k1 & Hin & E). exists k1. split; [right | ]; auto.
Qed.

Lemma originates_app (t t' : trace) (region : string) (uid : json)
    (status : string) :
  originates t region uid status -> originates (t ++ t') region uid status.
Proof.
  intros (rq & j & u & c & Hin & H). exists rq, j, u, c.
  split; [apply in_or_app; left; exact Hin | exact H].
Qed.

Lemma table_originates_app (t t' : trace)
    (tbl : option CdkeyInfoRetrieval.statuses) :
  table_originates t tbl -> table_originates (t ++ t') tbl.
Proof.
  destruct tbl as [d | ]; cbn; [ | trivial].
  intros H region inner uid status H1 H2.
  apply originates_app. eapply H; eauto.
Qed.

Lemma record_status_originates (t : trace)
    (acc acc' : option CdkeyInfoRetrieval.statuses) (region : string)
    (u : json) (s : string) :
  table_originates t acc ->
  CdkeyInfoRetrieval.record_status acc region u s = Ok acc' ->
  (forall uid, uid = u \/ py_eqb uid u = true -> originates t region uid s) ->
  table_originates t acc'.
Proof.
  intros Hacc Hrec Hnew. unfold CdkeyInfoRetrieval.record_status in Hrec.
  cbv zeta in Hrec.
  match type of Hrec with
  | context [dict_mem String.eqb region ?d] => set (d1 := d) in Hrec
  end.
  assert (H1 : entries_originate t d1).
  { unfold d1. destruct acc as [[ | x l] | ]; cbn.
    - intros ? ? ? ? [].
    - exact Hacc.
    - intros ? ? ? ? []. }
  match type of Hrec with
  | context [dict_find String.eqb region ?d] => set (d2 := d) in Hrec
  end.
  assert (H2 : entries_originate t d2).
  { unfold d2. destruct (negb (dict_mem String.eqb region d1)); [ | exact H1].
    intros region0 inner uid status Hin Hu.
    apply In_dict_set in Hin. destruct Hin as [Hin | [-> _]].
    - eapply H1; eauto.
    - destruct Hu. }
  destruct (dict_find String.eqb region d2) as [inner | ] eqn:Hf;
    [ | discriminate].
  destruct (hashable u); [ | discriminate].
  injection Hrec as <-. cbn.
  intros region0 inner0 uid status Hin Hu.
  apply In_dict_set in Hin. destruct Hin as [Hin | [-> Hreg]].
  - eapply H2; eauto.
  - assert (region0 = region) as ->.
    { destruct Hreg as [E | E]; [exact E | apply String.eqb_eq; exact E]. }
    apply In_dict_set in Hu. destruct Hu as [Hu | [-> Hk]].
    + apply dict_find_In in Hf. destruct Hf as (k' & Hin & E).
      apply String.eqb_eq in E. subst k'. eapply H2; eauto.
    + apply Hnew. exact Hk.
Qed.

Lemma record_status_hashable (acc acc' : option CdkeyInfoRetrieval.statuses)
    (region : string) (u : json) (s : string) :
  CdkeyInfoRetrieval.record_status acc region u s = Ok acc' ->
  hashable u = true.
Proof.
  unfold CdkeyInfoRetrieval.record_status. cbv zeta.
  destruct (dict_find String.eqb region _); [ | discriminate].
  destruct (hashable u); [reflexivity | discriminate].
Qed.

Lemma roles_loop_originates (session : CdkeyInfoRetrieval.Session)
    (cd_key region : string) :
  forall recs (r : remote) h acc t out,
    run r h (CdkeyInfoRetrieval.roles_loop session cd_key region recs acc)
      = (t, inr out) ->
    table_originates h acc ->
    table_originates (h ++ t) out.
Proof.
  induction recs as [ | role rest IH]; intros r h acc t out H Hacc.
  - cbn in H. injection H as <- <-. rewrite app_nil_r. exact Hacc.
  - apply roles_loop_inv in H.
    destruct H as (u & b & j & c & s & acc' & t' & Ha & Hr & Hc & Hs & Hrec
                   & -> & H).
    apply IH in H.
    + rewrite <- app_assoc in H. exact H.
    + eapply record_status_originates;
        [apply table_originates_app; exact Hacc | exact Hrec | ].
      intros uid Hu.
      exists (CdkeyInfoRetrieval.cdkey_request session u cd_key region b),
        j, u, c.
      split; [apply in_or_app; right; left; reflexivity | ].
      repeat (split; [reflexivity | ]).
      split; [ | auto].
      destruct Hu as [-> | E]; [ | exact E].
      apply py_eqb_refl. eapply record_status_hashable. exact Hrec.
Qed.

Lemma regions_loop_originates (session : CdkeyInfoRetrieval.Session)
    (cd_key : string) :
  forall rs (r : remote) h acc t out,
    run r h (CdkeyInfoRetrieval.regions_loop session cd_key rs acc)
      = (t, inr out) ->
    table_originates h acc ->
    table_originates (h ++ t) out.
Proof.
  induction rs as [ | region rest IH]; intros r h acc t out H Hacc.
  - cbn in H. injection H as <- <-. rewrite app_nil_r. exact Hacc.
  - apply regions_loop_inv in H.
    destruct H as (j & recs & t1 & acc' & t2 & Hr & Hl & H1 & H2 & ->).
    apply roles_loop_originates in H1;
      [ | apply table_originates_app; exact Hacc].
    rewrite <- app_assoc in H1. cbn [app] in H1.
    apply IH in H2; [ | exact H1].
    rewrite <- app_assoc in H2. cbn [app] in H2. exact H2.
Qed.

(** ** Counting the redemption calls *)

Lemma redemption_calls_app (t1 t2 : trace) :
  redemption_calls (t1 ++ t2) = redemption_calls t1 ++ redemption_calls t2.
Proof. unfold redemption_calls. rewrite map_app, filter_app. reflexivity. Qed.

Lemma discovered_app (t1 t2 : trace) :
  discovered (t1 ++ t2) = discovered t1 ++ discovered t2.
Proof. unfold discovered. apply flat_map_app. Qed.

Lemma roles_loop_calls (session : CdkeyInfoRetrieval.Session)
    (cd_key region : string) :
  forall recs (r : remote) h acc t out,
    run r h (CdkeyInfoRetrieval.roles_loop session cd_key region recs acc)
      = (t, inr out) ->
    redemption_calls t =
      map (redemption_for session cd_key) (account_refs region recs)
    /\ discovered t = [].
Proof.
  induction recs as [ | role rest IH]; intros r h acc t out H.
  - cbn in H. injection H as <- <-. split; reflexivity.
  - apply roles_loop_inv in H.
    destruct H as (u & b & j & c & s & acc' & t' & Ha & Hr & Hc & Hs & Hrec
                   & -> & H).
    apply IH in H. destruct H as [Hcalls Hdisc].
    split.
    + change (redemption_calls ((?rq, ?o) :: t'))
        with (rq :: redemption_calls t').
      rewrite Hcalls. unfold account_refs. cbn [flat_map]. rewrite Ha.
      reflexivity.
    + change (discovered (?ev :: t')) with (discovered t'). exact Hdisc.
Qed.

Lemma regions_loop_calls (session : CdkeyInfoRetrieval.Session)
    (cd_key : string) :
  forall rs (r : remote) h acc t out,
    run r h (CdkeyInfoRetrieval.regions_loop session cd_key rs acc)
      = (t, inr out) ->
    redemption_calls t = map (redemption_for session cd_key) (discovered t).
Proof.
  induction rs as [ | region rest IH]; intros r h acc t out H.
  - cbn in H. injection H as <- <-. reflexivity.
  - apply regions_loop_inv in H.
    destruct H as (j & recs & t1 & acc' & t2 & Hr & Hl & H1 & H2 & ->).
    apply roles_loop_calls in H1. destruct H1 as [Hc1 Hd1].
    apply IH in H2.
    change (redemption_calls (?ev :: t1 ++ t2))
      with (redemption_calls (t1 ++ t2)).
    assert (Hd : discovered
                   ((CdkeyInfoRetrieval.roles_request session region, Body j)
                      :: t1 ++ t2) =
                 account_refs region recs ++ discovered (t1 ++ t2)).
    { unfold discovered at 1. cbn [flat_map].
      change (is_role_lookup
                (CdkeyInfoRetrieval.roles_request session region)) with true.
      change (region_of (CdkeyInfoRetrieval.roles_request session region))
        with (Some region).
      cbv iota. rewrite Hl. reflexivity. }
    rewrite Hd, redemption_calls_app, discovered_app, Hc1, Hd1, H2.
    rewrite map_app. reflexivity.
Qed.

Lemma for_account_redemption_for (session : CdkeyInfoRetrieval.Session)
    (cd_key region : string) (uid : json) (p : string * json * json) :
  for_account region uid (redemption_for session cd_key p) =
  is_account region uid p.
Proof. destruct p as [[region' u] b]. reflexivity. Qed.

Lemma filter_map_length {A B : Type} (f : B -> bool) (g : A -> B)
    (l : list A) :
  List.length (filter f (map g l)) =
  List.length (filter (fun a => f (g a)) l).
Proof.
  induction l as [ | a l IH]; cbn; [reflexivity | ].
  destruct (f (g a)); cbn; rewrite IH; reflexivity.
Qed.

(** ** The claims *)

(** C1: whatever integer [retcode] the redemption endpoint answers, the
    redemption check of each script returns its label: 0 gives "success",
    -2001 "expired", -2003 "invalid", -2017 "already in use", any other
    integer "unknown". *)
Theorem redemption_check_label :
  forall (r : remote) (h : trace) (uid game_biz : json)
         (cdkey cookie region : string) (j : json) (z : Z),
    getitem j "retcode" = Ok (JInt z) ->
    (r h (Cdkey.cdkey_request uid cdkey cookie region game_biz) = Body j ->
     run r h (Cdkey.get_cdkey_info uid cdkey cookie region game_biz) =
     ([(Cdkey.cdkey_request uid cdkey cookie region game_biz, Body j)],
      Ok (spec_label z)))
    /\
    (r h (CdKeyRetrieval.cdkey_request uid cdkey cookie region game_biz)
       = Body j ->
     run r h (CdKeyRetrieval.get_cdkey_status uid cdkey cookie region game_biz)
     = ([(CdKeyRetrieval.cdkey_request uid cdkey cookie region game_biz,
          Body j)],
        Ok (spec_label z)))
    /\
    (forall session,
       r h (CdkeyInfoRetrieval.cdkey_request session uid cdkey region game_biz)
         = Body j ->
       run r h
         (CdkeyInfoRetrieval.get_cdkey_status session uid cdkey region game_biz)
       = ([(CdkeyInfoRetrieval.cdkey_request session uid cdkey region game_biz,
            Body j)],
          Ok (spec_label z))).
Proof.
  intros r h uid game_biz cdkey cookie region j z Hret.
  split; [ | split ]; [ | | intros session ]; intros Hr.
  - eapply get_cdkey_info_run; eauto using status_table_label.
  - eapply get_cdkey_status_run; eauto using status_table_label.
  - eapply session_get_cdkey_status_run; eauto using status_table_label.
Qed.

Lemma redemption_check_label_witness :
  let r := demo_remote (fun _ => roles_body []) (fun _ => JInt (-2017)) in
  run r [] (Cdkey.get_cdkey_info (JInt 7) "GENSHINGIFT" "c" "os_usa"
              (JStr "hk4e_global")) =
    ([(Cdkey.cdkey_request (JInt 7) "GENSHINGIFT" "c" "os_usa"
         (JStr "hk4e_global"),
       Body (JObj [("retcode", JInt (-2017))]))],
     Ok "already in use").
Proof.
  intros r.
  exact (proj1 (redemption_check_label r [] (JInt 7) (JStr "hk4e_global")
                  "GENSHINGIFT" "c" "os_usa"
                  (JObj [("retcode", JInt (-2017))]) (-2017) eq_refl)
           eq_refl).
Defined.

(** C7: when a remote call fails in transit or answers a body that is not
    JSON, the run ends there with that exception: nothing catches it, no
    call follows it (so no retry), and no status is returned. *)
Theorem remote_failure_is_fatal :
  forall (r : remote) (cdkey cookie : string) (pre post : trace)
         (rq : request) (o : outcome) (e : exn),
    failure_exn o = Some e ->
    (forall t res,
       run r [] (Cdkey.main cdkey cookie) = (t, res) ->
       t = pre ++ (rq, o) :: post -> post = [] /\ res = Err e)
    /\
    (forall t res,
       run r [] (CdKeyRetrieval.main cdkey cookie) = (t, res) ->
       t = pre ++ (rq, o) :: post -> post = [] /\ res = Err e)
    /\
    (forall t res,
       run r [] (CdkeyInfoRetrieval.main cdkey cookie) = (t, res) ->
       t = pre ++ (rq, o) :: post -> post = [] /\ res = Err e).
Proof.
  intros r cdkey cookie pre post rq o e Ho.
  split; [ | split ]; intros t res Hrun Ht.
  - eapply (propagates_run _ (Cdkey_main_propagates cdkey cookie)); eauto.
  - eapply (propagates_run _ (CdKeyRetrieval_main_propagates cdkey cookie));
      eauto.
  - eapply (propagates_run _
              (regions_loop_propagates _ cdkey regions None)); eauto.
Qed.

Lemma remote_failure_is_fatal_witness :
  run offline [] (CdkeyInfoRetrieval.main "NS92PG6DB52M" "") =
    ([(CdkeyInfoRetrieval.roles_request (CdkeyInfoRetrieval.mk_session
         [("Cookie", "")]) "os_usa", NetworkFailure)],
     Err RequestException)
  /\ ([] : trace) = [] /\
  (Err RequestException : result (option CdkeyInfoRetrieval.statuses))
    = Err RequestException.
Proof.
  split; [ reflexivity | ].
  exact (proj2 (proj2
    (remote_failure_is_fatal offline "NS92PG6DB52M" "" [] []
       (CdkeyInfoRetrieval.roles_request
          (CdkeyInfoRetrieval.mk_session [("Cookie", "")]) "os_usa")
       NetworkFailure RequestException eq_refl))
    _ _ eq_refl eq_refl).
Defined.

(** C2, at the input that breaks it: when the account service answers
    [data: null], cdkey.py subscripts the absent payload and raises
    [TypeError] at the first region, while the two later scripts test the
    payload first, skip the region and finish without a redemption call. *)
Theorem absent_data_raises_in_cdkey_py :
  let r : remote := fun _ _ => Body no_data_body in
  absent_data no_data_body = true
  /\ run r [] (Cdkey.main "GENSHINGIFT" "c") =
       ([(Cdkey.roles_request "c" "os_usa", Body no_data_body)],
        Err TypeError)
  /\ run r [] (CdKeyRetrieval.main "GENSHINGIFT" "c") =
       (lookups (CdKeyRetrieval.roles_request "c") (fun _ => no_data_body)
          regions,
        Ok None)
  /\ run r [] (CdkeyInfoRetrieval.main "GENSHINGIFT" "c") =
       (lookups
          (CdkeyInfoRetrieval.roles_request
             (CdkeyInfoRetrieval.mk_session [("Cookie", "c")]))
          (fun _ => no_data_body) regions,
        Ok None).
Proof. intros r. repeat split. Qed.

(** X12: when every one of the four regions answers with a data payload
    whose role list is empty or null, the early-return drivers fall off the
    end of the loop and return [None], not one of the five status strings,
    after the four role lookups and no redemption call.
    cd_key_retrieval.py does the same when the data payload itself is
    absent. *)
Theorem early_return_none_without_roles :
  forall (r : remote) (cdkey cookie : string) (roles_of : string -> json),
    ((forall s, In s regions ->
        answers r (Cdkey.roles_request cookie s) (Body (roles_of s))) ->
     (forall s, In s regions -> empty_role_list (roles_of s) = true) ->
     run r [] (Cdkey.main cdkey cookie) =
     (lookups (Cdkey.roles_request cookie) roles_of regions, Ok None))
    /\
    ((forall s, In s regions ->
        answers r (CdKeyRetrieval.roles_request cookie s)
          (Body (roles_of s))) ->
     (forall s, In s regions ->
        absent_data (roles_of s) || empty_role_list (roles_of s) = true) ->
     run r [] (CdKeyRetrieval.main cdkey cookie) =
     (lookups (CdKeyRetrieval.roles_request cookie) roles_of regions,
      Ok None)).
Proof.
  intros r cdkey cookie roles_of. split; intros Hans Hskip.
  - unfold Cdkey.main. rewrite <- (app_nil_r regions) at 1.
    rewrite (loop_skips (Cdkey.main_loop cdkey cookie)
               (Cdkey.roles_request cookie) empty_role_list
               (Cdkey_loop_skip cdkey cookie) r roles_of regions [] []
               Hans Hskip).
    cbn [Cdkey.main_loop run]. rewrite app_nil_r. reflexivity.
  - unfold CdKeyRetrieval.main. rewrite <- (app_nil_r regions) at 1.
    rewrite (loop_skips (CdKeyRetrieval.main_loop cdkey cookie)
               (CdKeyRetrieval.roles_request cookie)
               (fun j => absent_data j || empty_role_list j)
               (CdKeyRetrieval_loop_skip cdkey cookie) r roles_of regions
               [] [] Hans Hskip).
    cbn [CdKeyRetrieval.main_loop run]. rewrite app_nil_r. reflexivity.
Qed.

Lemma early_return_none_without_roles_witness :
  snd (run (demo_remote (fun _ => roles_body []) (fun _ => JInt 0)) []
         (Cdkey.main "GENSHINGIFT" "c")) = Ok None.
Proof.
  rewrite (proj1 (early_return_none_without_roles
                    (demo_remote (fun _ => roles_body []) (fun _ => JInt 0))
                    "GENSHINGIFT" "c" (fun _ => roles_body []))).
  - reflexivity.
  - intros s Hin h. simpl in Hin.
    destruct Hin as [<- | [<- | [<- | [<- | []]]]]; reflexivity.
  - intros s _. reflexivity.
Defined.

(** X11: when the regions before the first one that has roles answer
    with an empty or null role list, an early-return driver looks the
    regions up in the order os_usa, os_euro, os_asia, os_cht, passes those
    regions, makes one redemption call, for the first account of the first
    region that has roles, and returns the label of that call's retcode.
    cd_key_retrieval.py also passes a region whose data payload is
    absent. *)
Theorem early_return_first_account :
  forall (r : remote) (cdkey cookie : string) (roles_of : string -> json)
         (skipped rest : list string) (region : string)
         (first uid biz jr : json) (z : Z),
    regions = skipped ++ region :: rest ->
    first_role (roles_of region) = Some first ->
    account_ref first = Some (uid, biz) ->
    getitem jr "retcode" = Ok (JInt z) ->
    ((forall s, In s (skipped ++ [region]) ->
        answers r (Cdkey.roles_request cookie s) (Body (roles_of s))) ->
     (forall s, In s skipped -> empty_role_list (roles_of s) = true) ->
     answers r (Cdkey.cdkey_request uid cdkey cookie region biz) (Body jr) ->
     run r [] (Cdkey.main cdkey cookie) =
     (lookups (Cdkey.roles_request cookie) roles_of skipped ++
        [(Cdkey.roles_request cookie region, Body (roles_of region));
         (Cdkey.cdkey_request uid cdkey cookie region biz, Body jr)],
      Ok (Some (spec_label z))))
    /\
    ((forall s, In s (skipped ++ [region]) ->
        answers r (CdKeyRetrieval.roles_request cookie s)
          (Body (roles_of s))) ->
     (forall s, In s skipped ->
        absent_data (roles_of s) || empty_role_list (roles_of s) = true) ->
     answers r (CdKeyRetrieval.cdkey_request uid cdkey cookie region biz)
       (Body jr) ->
     run r [] (CdKeyRetrieval.main cdkey cookie) =
     (lookups (CdKeyRetrieval.roles_request cookie) roles_of skipped ++
        [(CdKeyRetrieval.roles_request cookie region,
          Body (roles_of region));
         (CdKeyRetrieval.cdkey_request uid cdkey cookie region biz,
          Body jr)],
      Ok (Some (spec_label z)))).
Proof.
  intros r cdkey cookie roles_of skipped rest region first uid biz jr z
    Hreg Hfirst Hacc Hret.
  split; intros Hans Hskip Hred.
  - unfold Cdkey.main. rewrite Hreg.
    rewrite (loop_skips (Cdkey.main_loop cdkey cookie)
               (Cdkey.roles_request cookie) empty_role_list
               (Cdkey_loop_skip cdkey cookie) r roles_of skipped).
    + erewrite Cdkey_loop_hit; eauto using status_table_label.
      apply Hans. apply in_or_app. right. left. reflexivity.
    + intros s Hin. apply Hans. apply in_or_app. left. exact Hin.
    + exact Hskip.
  - unfold CdKeyRetrieval.main. rewrite Hreg.
    rewrite (loop_skips (CdKeyRetrieval.main_loop cdkey cookie)
               (CdKeyRetrieval.roles_request cookie)
               (fun j => absent_data j || empty_role_list j)
               (CdKeyRetrieval_loop_skip cdkey cookie) r roles_of skipped).
    + erewrite CdKeyRetrieval_loop_hit; eauto using status_table_label.
      apply Hans. apply in_or_app. right. left. reflexivity.
    + intros s Hin. apply Hans. apply in_or_app. left. exact Hin.
    + exact Hskip.
Qed.

Lemma early_return_first_account_witness :
  run (demo_remote euro_roles (fun _ => JInt (-2001))) []
    (Cdkey.main "GENSHINGIFT" "c") =
  ([(Cdkey.roles_request "c" "os_usa", Body (roles_body []));
    (Cdkey.roles_request "c" "os_euro", Body (roles_body [role 7; role 8]));
    (Cdkey.cdkey_request (JInt 7) "GENSHINGIFT" "c" "os_euro"
       (JStr "hk4e_global"),
     Body (JObj [("retcode", JInt (-2001))]))],
   Ok (Some "expired")).
Proof.
  apply (proj1 (early_return_first_account
                  (demo_remote euro_roles (fun _ => JInt (-2001)))
                  "GENSHINGIFT" "c" euro_roles
                  ["os_usa"] ["os_asia"; "os_cht"] "os_euro"
                  (role 7) (JInt 7) (JStr "hk4e_global")
                  (JObj [("retcode", JInt (-2001))]) (-2001)
                  eq_refl eq_refl eq_refl eq_refl)).
  - intros s Hin h. simpl in Hin.
    destruct Hin as [<- | [<- | []]]; reflexivity.
  - intros s Hin. simpl in Hin. destruct Hin as [<- | []]. reflexivity.
  - intros h. reflexivity.
Defined.

(** C9: when no region yields an account, the exhaustive driver returns
    [None], the value its accumulator starts with, and not an empty table:
    the four role lookups are its only calls. *)
Theorem exhaustive_none_without_accounts :
  forall (r : remote) (cd_key cookie : string) (roles_of : string -> json),
    let session := CdkeyInfoRetrieval.mk_session [("Cookie", cookie)] in
    (forall s, In s regions ->
       answers r (CdkeyInfoRetrieval.roles_request session s)
         (Body (roles_of s))) ->
    (forall s, In s regions -> no_accounts (roles_of s) = true) ->
    run r [] (CdkeyInfoRetrieval.main cd_key cookie) =
    (lookups (CdkeyInfoRetrieval.roles_request session) roles_of regions,
     Ok None).
Proof.
  intros r cd_key cookie roles_of session Hans Hskip.
  unfold CdkeyInfoRetrieval.main. fold session.
  rewrite <- (app_nil_r regions) at 1.
  rewrite (loop_skips
             (fun rs => CdkeyInfoRetrieval.regions_loop session cd_key rs None)
             (CdkeyInfoRetrieval.roles_request session) no_accounts
             (regions_loop_skip session cd_key None) r roles_of regions
             [] [] Hans Hskip).
  cbn [CdkeyInfoRetrieval.regions_loop run]. rewrite app_nil_r. reflexivity.
Qed.

Lemma exhaustive_none_without_accounts_witness :
  snd (run (demo_remote (fun _ => no_data_body) (fun _ => JInt 0)) []
         (CdkeyInfoRetrieval.main "NS92PG6DB52M" "")) = Ok None.
Proof.
  rewrite (exhaustive_none_without_accounts
             (demo_remote (fun _ => no_data_body) (fun _ => JInt 0))
             "NS92PG6DB52M" "" (fun _ => no_data_body)).
  - reflexivity.
  - intros s Hin h. simpl in Hin.
    destruct Hin as [<- | [<- | [<- | [<- | []]]]]; reflexivity.
  - intros s _. reflexivity.
Defined.

(** C4: when the role lookup returns two accounts with different ids for
    os_usa and no account for the other regions, the exhaustive driver
    returns a table whose only key is "os_usa", holding two entries, one
    per account id, each with the label of that account's redemption. *)
Theorem exhaustive_two_accounts :
  forall (r : remote) (cd_key cookie : string) (roles_of : string -> json)
         (role1 role2 u1 b1 u2 b2 j1 j2 : json) (z1 z2 : Z),
    let session := CdkeyInfoRetrieval.mk_session [("Cookie", cookie)] in
    let rq1 := CdkeyInfoRetrieval.cdkey_request session u1 cd_key "os_usa" b1 in
    let rq2 := CdkeyInfoRetrieval.cdkey_request session u2 cd_key "os_usa" b2 in
    (forall s, In s regions ->
       answers r (CdkeyInfoRetrieval.roles_request session s)
         (Body (roles_of s))) ->
    lookup_roles (roles_of "os_usa") = Some [role1; role2] ->
    (forall s, In s ["os_euro"; "os_asia"; "os_cht"] ->
       no_accounts (roles_of s) = true) ->
    account_ref role1 = Some (u1, b1) ->
    account_ref role2 = Some (u2, b2) ->
    hashable u1 = true ->
    hashable u2 = true ->
    py_eqb u1 u2 = false ->
    answers r rq1 (Body j1) ->
    getitem j1 "retcode" = Ok (JInt z1) ->
    answers r rq2 (Body j2) ->
    getitem j2 "retcode" = Ok (JInt z2) ->
    run r [] (CdkeyInfoRetrieval.main cd_key cookie) =
    ((CdkeyInfoRetrieval.roles_request session "os_usa",
      Body (roles_of "os_usa"))
       :: (rq1, Body j1) :: (rq2, Body j2)
       :: lookups (CdkeyInfoRetrieval.roles_request session) roles_of
            ["os_euro"; "os_asia"; "os_cht"],
     Ok (Some [("os_usa", [(u1, spec_label z1); (u2, spec_label z2)])])).
Proof.
  intros r cd_key cookie roles_of role1 role2 u1 b1 u2 b2 j1 j2 z1 z2
    session rq1 rq2 Hans Husa Hothers Ha1 Ha2 Hh1 Hh2 Hne Hr1 Hz1 Hr2 Hz2.
  unfold CdkeyInfoRetrieval.main. fold session. unfold regions.
  erewrite regions_loop_step;
    [ | apply Hans; left; reflexivity | exact Husa ].
  cbv zeta.
  erewrite roles_loop_step;
    [ | exact Ha1 | apply Hr1 | exact Hz1 | apply status_table_label
      | unfold CdkeyInfoRetrieval.record_status; cbn; rewrite Hh1;
        reflexivity ].
  cbv zeta.
  erewrite roles_loop_step;
    [ | exact Ha2 | apply Hr2 | exact Hz2 | apply status_table_label
      | unfold CdkeyInfoRetrieval.record_status; cbn; rewrite Hh2, Hne;
        reflexivity ].
  cbv zeta. cbn [CdkeyInfoRetrieval.roles_loop run app].
  rewrite <- (app_nil_r ["os_euro"; "os_asia"; "os_cht"]) at 1.
  rewrite (loop_skips
             (fun rs => CdkeyInfoRetrieval.regions_loop session cd_key rs _)
             (CdkeyInfoRetrieval.roles_request session) no_accounts
             (regions_loop_skip session cd_key _) r roles_of
             ["os_euro"; "os_asia"; "os_cht"] []).
  - cbn [CdkeyInfoRetrieval.regions_loop run]. rewrite app_nil_r.
    reflexivity.
  - intros s Hin. apply Hans. right. exact Hin.
  - exact Hothers.
Qed.

Lemma exhaustive_two_accounts_witness :
  snd (run (demo_remote usa_roles first_come) []
         (CdkeyInfoRetrieval.main "NS92PG6DB52M" "")) =
  Ok (Some [("os_usa", [(JInt 7, "success"); (JInt 8, "already in use")])]).
Proof.
  rewrite (exhaustive_two_accounts (demo_remote usa_roles first_come)
             "NS92PG6DB52M" "" usa_roles (role 7) (role 8)
             (JInt 7) (JStr "hk4e_global") (JInt 8) (JStr "hk4e_global")
             (JObj [("retcode", JInt 0)]) (JObj [("retcode", JInt (-2017))])
             0 (-2017)).
  - reflexivity.
  - intros s Hin h. simpl in Hin.
    destruct Hin as [<- | [<- | [<- | [<- | []]]]]; reflexivity.
  - reflexivity.
  - intros s Hin. simpl in Hin.
    destruct Hin as [<- | [<- | [<- | []]]]; reflexivity.
  - reflexivity.
  - reflexivity.
  - reflexivity.
  - reflexivity.
  - reflexivity.
  - intros h. reflexivity.
  - reflexivity.
  - intros h. reflexivity.
  - reflexivity.
Defined.

(** C6: every status in the table the exhaustive driver returns is the
    label that the fixed table gives to the retcode answered to a
    redemption call of that run for that region and account; and a code the
    table does not list gets "unknown", not an error. *)
Theorem statuses_come_from_redemption_calls :
  forall (r : remote) (cd_key cookie : string) (t : trace)
         (out : option CdkeyInfoRetrieval.statuses),
    run r [] (CdkeyInfoRetrieval.main cd_key cookie) = (t, Ok out) ->
    table_originates t out
    /\ (forall c, hashable c = true ->
          exists s, dict_get status_table c "unknown" = Ok s)
    /\ (forall z, z <> 0%Z -> z <> (-2001)%Z -> z <> (-2003)%Z ->
          z <> (-2017)%Z ->
          dict_get status_table (JInt z) "unknown" = Ok "unknown").
Proof.
  intros r cd_key cookie t out H. split; [ | split].
  - unfold CdkeyInfoRetrieval.main in H.
    apply regions_loop_originates in H; [exact H | exact I].
  - intros c Hc. unfold dict_get. rewrite Hc.
    destruct (dict_find py_eqb c status_table); eauto.
  - intros z H0 H1 H2 H3. rewrite status_table_label. unfold spec_label.
    repeat match goal with
           | |- context [Z.eqb z ?k] =>
               destruct (Z.eqb_spec z k); [congruence | ]
           end.
    reflexivity.
Qed.

Lemma statuses_come_from_redemption_calls_witness :
  originates (fst (run (demo_remote usa_roles first_come) []
                     (CdkeyInfoRetrieval.main "NS92PG6DB52M" "")))
    "os_usa" (JInt 8) "already in use".
Proof.
  destruct (statuses_come_from_redemption_calls
              (demo_remote usa_roles first_come) "NS92PG6DB52M" "" _ _
              eq_refl) as [H _].
  apply (H "os_usa" [(JInt 7, "success"); (JInt 8, "already in use")]).
  - left. reflexivity.
  - right. left. reflexivity.
Defined.

(** ** Further properties of the drivers *)

(** X1: in a run of the exhaustive driver that returns, the redemption
    calls are, in order, one per role record that the role lookups of the
    run returned; so an account of a region gets as many calls as role
    records carry it, twice when the list names it twice. *)
Theorem exhaustive_one_call_per_record :
  forall (r : remote) (cd_key cookie : string) (t : trace)
         (out : option CdkeyInfoRetrieval.statuses),
    run r [] (CdkeyInfoRetrieval.main cd_key cookie) = (t, Ok out) ->
    redemption_calls t =
      map (redemption_for
             (CdkeyInfoRetrieval.mk_session [("Cookie", cookie)]) cd_key)
        (discovered t)
    /\ (forall region uid,
          calls_for region uid t = records_for region uid t).
Proof.
  intros r cd_key cookie t out H.
  unfold CdkeyInfoRetrieval.main in H.
  apply regions_loop_calls in H. split; [exact H | ].
  intros region uid. unfold calls_for, records_for. rewrite H.
  rewrite filter_map_length.
  f_equal. apply filter_ext. intros p. apply for_account_redemption_for.
Qed.

Lemma exhaustive_one_call_per_record_witness :
  calls_for "os_usa" (JInt 7)
    (fst (run (demo_remote twice_roles first_come) []
            (CdkeyInfoRetrieval.main "NS92PG6DB52M" ""))) = 2%nat.
Proof.
  etransitivity.
  - exact (proj2 (exhaustive_one_call_per_record
                    (demo_remote twice_roles first_come) "NS92PG6DB52M" ""
                    (fst (run (demo_remote twice_roles first_come) []
                            (CdkeyInfoRetrieval.main "NS92PG6DB52M" "")))
                    (Some [("os_usa", [(JInt 7, "success")])])
                    eq_refl) "os_usa" (JInt 7)).
  - reflexivity.
Defined.

Lemma sends_bind {A B : Type} (P : request -> Prop) (p : prog A)
    (f : A -> prog B) :
  sends P p -> (forall a, sends P (f a)) -> sends P (bind p f).
Proof.
  intros Hp Hf. induction Hp as [a | e | rq k Hrq _ IH]; cbn.
  - apply Hf.
  - constructor.
  - constructor; [exact Hrq | exact IH].
Qed.

Lemma sends_lift {A : Type} (P : request -> Prop) (x : result A) :
  sends P (lift x).
Proof. destruct x; constructor. Qed.

Lemma sends_get_json (P : request -> Prop) (rq : request) :
  P rq -> sends P (get_json rq).
Proof.
  intros H. constructor; [exact H | ]. intros [ | | j]; constructor.
Qed.

Lemma sends_run {A : Type} (P : request -> Prop) (p : prog A) :
  sends P p ->
  forall (r : remote) h, Forall (fun ev => P (fst ev)) (fst (run r h p)).
Proof.
  induction 1 as [a | e | rq k Hrq _ IH]; intros r h; cbn.
  - constructor.
  - constructor.
  - specialize (IH (r h rq) r (h ++ [(rq, r h rq)])).
    destruct (run r (h ++ [(rq, r h rq)]) (k (r h rq))) as [t res].
    cbn in *. constructor; [exact Hrq | exact IH].
Qed.

Ltac sends_steps :=
  repeat first
    [ apply sends_bind; [ | intro ]
    | apply sends_lift
    | apply sends_get_json; split; [ reflexivity | auto ]
    | apply sends_Ret
    | match goal with |- sends _ (if ?b then _ else _) => destruct b end ].

Lemma Cdkey_main_sends (cdkey cookie : string) :
  sends (authenticated cookie) (Cdkey.main cdkey cookie).
Proof.
  unfold Cdkey.main. induction regions as [ | region rest IH];
    cbn [Cdkey.main_loop].
  - constructor.
  - unfold Cdkey.get_cdkey_info. sends_steps; exact IH.
Qed.

Lemma CdKeyRetrieval_main_sends (cd_key auth_cookie : string) :
  sends (authenticated auth_cookie) (CdKeyRetrieval.main cd_key auth_cookie).
Proof.
  unfold CdKeyRetrieval.main. induction regions as [ | region rest IH];
    cbn [CdKeyRetrieval.main_loop].
  - constructor.
  - unfold CdKeyRetrieval.get_cdkey_status. sends_steps; exact IH.
Qed.

Lemma roles_loop_sends (cookie cd_key target_region : string)
    (roles : list json) :
  forall acc,
    sends (authenticated cookie)
      (CdkeyInfoRetrieval.roles_loop
         (CdkeyInfoRetrieval.mk_session [("Cookie", cookie)])
         cd_key target_region roles acc).
Proof.
  induction roles as [ | role rest IH]; intros acc;
    cbn [CdkeyInfoRetrieval.roles_loop].
  - constructor.
  - unfold CdkeyInfoRetrieval.get_cdkey_status,
      CdkeyInfoRetrieval.session_get.
    sends_steps. apply IH.
Qed.

Lemma CdkeyInfoRetrieval_main_sends (cd_key auth_cookie : string) :
  sends (authenticated auth_cookie)
    (CdkeyInfoRetrieval.main cd_key auth_cookie).
Proof.
  unfold CdkeyInfoRetrieval.main. cbv zeta. generalize (@None CdkeyInfoRetrieval.statuses).
  induction regions as [ | region rest IH]; intros acc;
    cbn [CdkeyInfoRetrieval.regions_loop].
  - constructor.
  - unfold CdkeyInfoRetrieval.session_get.
    sends_steps; try apply IH. apply roles_loop_sends.
Qed.

(** X2: whatever the remote side answers, every request a driver sends
    goes to the role-listing or to the redemption endpoint and carries the
    caller's cookie as its only header. *)
Theorem requests_are_authenticated :
  forall (r : remote) (cdkey cookie : string),
    Forall (fun ev => authenticated cookie (fst ev))
      (fst (run r [] (Cdkey.main cdkey cookie)))
    /\ Forall (fun ev => authenticated cookie (fst ev))
         (fst (run r [] (CdKeyRetrieval.main cdkey cookie)))
    /\ Forall (fun ev => authenticated cookie (fst ev))
         (fst (run r [] (CdkeyInfoRetrieval.main cdkey cookie))).
Proof.
  intros r cdkey cookie. split; [ | split]; apply sends_run.
  - apply Cdkey_main_sends.
  - apply CdKeyRetrieval_main_sends.
  - apply CdkeyInfoRetrieval_main_sends.
Qed.

Lemma get_cdkey_info_cases (r : remote) (h : trace) (uid game_biz : json)
    (cdkey cookie region : string) (t : trace) (res : result string) :
  run r h (Cdkey.get_cdkey_info uid cdkey cookie region game_biz) = (t, res) ->
  t = [(Cdkey.cdkey_request uid cdkey cookie region game_biz,
        r h (Cdkey.cdkey_request uid cdkey cookie region game_biz))]
  /\ (forall s, res = Ok s ->
        exists j c,
          r h (Cdkey.cdkey_request uid cdkey cookie region game_biz) = Body j
          /\ getitem j "retcode" = Ok c
          /\ dict_get status_table c "unknown" = Ok s).
Proof.
  unfold Cdkey.get_cdkey_info. cbn [get_json bind run].
  destruct (r h (Cdkey.cdkey_request uid cdkey cookie region game_biz))
    as [ | | j] eqn:Hr; cbn [bind run].
  - intros H. injection H as <- <-. split; [reflexivity | discriminate].
  - intros H. injection H as <- <-. split; [reflexivity | discriminate].
  - rewrite run_lift.
    destruct (getitem j "retcode") as [e | c] eqn:Hc.
    + intros H. injection H as <- <-. split; [reflexivity | discriminate].
    + destruct (dict_get status_table c "unknown") as [e | s'] eqn:Hs;
        cbn [lift run]; intros H; injection H as <- <-;
        (split; [reflexivity | ]); intros s E; [discriminate | ].
      injection E as <-. exists j, c. auto.
Qed.

Lemma redemption_calls_lookup (cookie region : string) (o : outcome)
    (t : trace) :
  redemption_calls ((Cdkey.roles_request cookie region, o) :: t) =
  redemption_calls t.
Proof. reflexivity. Qed.

Lemma redemption_calls_redeem (uid game_biz : json)
    (cdkey cookie region : string) (o : outcome) (t : trace) :
  redemption_calls
    ((Cdkey.cdkey_request uid cdkey cookie region game_biz, o) :: t) =
  Cdkey.cdkey_request uid cdkey cookie region game_biz :: redemption_calls t.
Proof. reflexivity. Qed.

Lemma early_return_outcome_lookup (cookie region : string) (o : outcome)
    (t : trace) (res : result (option string)) :
  early_return_outcome t res ->
  early_return_outcome ((Cdkey.roles_request cookie region, o) :: t) res.
Proof.
  destruct res as [e | [s | ]]; cbn [early_return_outcome].
  - rewrite redemption_calls_lookup. auto.
  - intros (pre & rq & j & c & -> & Hpre & H).
    exists ((Cdkey.roles_request cookie region, o) :: pre), rq, j, c.
    split; [reflexivity | ]. split; [ | exact H].
    rewrite redemption_calls_lookup. exact Hpre.
  - rewrite redemption_calls_lookup. auto.
Qed.

Lemma early_return_outcome_redeem (r : remote) (h : trace)
    (uid game_biz : json) (cdkey cookie region : string) (t : trace)
    (res : result string) (o : outcome) :
  run r h (Cdkey.get_cdkey_info uid cdkey cookie region game_biz) = (t, res) ->
  early_return_outcome ((Cdkey.roles_request cookie region, o) :: t)
    match res with inl e => inl e | inr s => inr (Some s) end.
Proof.
  intros H. apply get_cdkey_info_cases in H. destruct H as [-> Hlab].
  destruct res as [e | s]; cbn [early_return_outcome].
  - rewrite redemption_calls_lookup, redemption_calls_redeem. cbn. lia.
  - destruct (Hlab s eq_refl) as (j & c & Hr & Hc & Hs). rewrite Hr.
    exists [(Cdkey.roles_request cookie region, o)],
      (Cdkey.cdkey_request uid cdkey cookie region game_biz), j, c.
    repeat split; auto.
Qed.

Ltac lift_step H :=
  rewrite run_lift in H;
  match type of H with
  | context [match ?x with inl _ => _ | inr _ => _ end] =>
      destruct x eqn:?
  end;
  cbv beta iota in H.

Ltac ends_after_lookup H :=
  injection H as <- <-; cbn [early_return_outcome];
  rewrite redemption_calls_lookup; cbn; lia.

Lemma Cdkey_main_loop_outcome (cdkey cookie : string) :
  forall rs (r : remote) h t res,
    run r h (Cdkey.main_loop cdkey cookie rs) = (t, res) ->
    early_return_outcome t res.
Proof.
  induction rs as [ | region rest IH]; intros r h t res H.
  - cbn in H. injection H as <- <-. reflexivity.
  - cbn [Cdkey.main_loop] in H. cbn [get_json bind run] in H.
    destruct (r h (Cdkey.roles_request cookie region)) as [ | | j] eqn:Hr;
      cbn [bind run] in H; try (ends_after_lookup H).
    lift_step H; [ends_after_lookup H | ].
    lift_step H; [ends_after_lookup H | ].
    match type of H with context [truthy ?l] => destruct (truthy l) end.
    + lift_step H; [ends_after_lookup H | ].
      lift_step H; [ends_after_lookup H | ].
      lift_step H; [ends_after_lookup H | ].
      rewrite run_bind in H.
      match type of H with
      | context [run r ?h' (Cdkey.get_cdkey_info ?u _ _ _ ?b)] =>
          destruct (run r h' (Cdkey.get_cdkey_info u cdkey cookie region b))
            as [t1 res1] eqn:Hcall
      end.
      apply (early_return_outcome_redeem _ _ _ _ _ _ _ _ _ (Body j))
        in Hcall.
      destruct res1 as [e | s]; cbn [run] in H; injection H as <- <-.
      * exact Hcall.
      * rewrite app_nil_r. exact Hcall.
    + destruct (run r _ (Cdkey.main_loop cdkey cookie rest))
        as [t' res'] eqn:Hrest.
      injection H as <- <-.
      apply early_return_outcome_lookup. eapply IH. exact Hrest.
Qed.

Lemma CdKeyRetrieval_main_loop_outcome (cd_key auth_cookie : string) :
  forall rs (r : remote) h t res,
    run r h (CdKeyRetrieval.main_loop cd_key auth_cookie rs) = (t, res) ->
    early_return_outcome t res.
Proof.
  induction rs as [ | region rest IH]; intros r h t res H.
  - cbn in H. injection H as <- <-. reflexivity.
  - cbn [CdKeyRetrieval.main_loop] in H. cbn [get_json bind run] in H.
    destruct (r h (CdKeyRetrieval.roles_request auth_cookie region))
      as [ | | j] eqn:Hr;
      cbn [bind run] in H; try (ends_after_lookup H).
    lift_step H; [ends_after_lookup H | ].
    match type of H with context [truthy ?d] => destruct (truthy d) end;
      cbn [negb] in H.
    + lift_step H; [ends_after_lookup H | ].
      match type of H with context [truthy ?l] => destruct (truthy l) end.
      * lift_step H; [ends_after_lookup H | ].
        lift_step H; [ends_after_lookup H | ].
        lift_step H; [ends_after_lookup H | ].
        rewrite run_bind in H.
        match type of H with
        | context [run r ?h' (CdKeyRetrieval.get_cdkey_status ?u _ _ _ ?b)] =>
            destruct (run r h'
                        (CdKeyRetrieval.get_cdkey_status u cd_key auth_cookie
                           region b)) as [t1 res1] eqn:Hcall
        end.
        apply (early_return_outcome_redeem _ _ _ _ _ _ _ _ _ (Body j))
          in Hcall.
        destruct res1 as [e | s]; cbn [run] in H; injection H as <- <-.
        -- exact Hcall.
        -- rewrite app_nil_r. exact Hcall.
      * destruct (run r _ (CdKeyRetrieval.main_loop cd_key auth_cookie rest))
          as [t' res'] eqn:Hrest.
        injection H as <- <-.
        apply early_return_outcome_lookup. eapply IH. exact Hrest.
    + destruct (run r _ (CdKeyRetrieval.main_loop cd_key auth_cookie rest))
        as [t' res'] eqn:Hrest.
      injection H as <- <-.
      apply early_return_outcome_lookup. eapply IH. exact Hrest.
Qed.

(** X3: however the remote side answers, a run of an early-return driver
    makes one redemption call at most.  When it returns a status it made
    exactly one, as its last exchange, and the status is the label of that
    call's retcode; when it returns [None] it made none. *)
Theorem early_return_one_call_at_most :
  forall (r : remote) (cdkey cookie : string),
    (early_return_outcome (fst (run r [] (Cdkey.main cdkey cookie)))
       (snd (run r [] (Cdkey.main cdkey cookie)))
     /\ (List.length
           (redemption_calls (fst (run r [] (Cdkey.main cdkey cookie))))
         <= 1)%nat)
    /\
    (early_return_outcome
       (fst (run r [] (CdKeyRetrieval.main cdkey cookie)))
       (snd (run r [] (CdKeyRetrieval.main cdkey cookie)))
     /\ (List.length
           (redemption_calls
              (fst (run r [] (CdKeyRetrieval.main cdkey cookie))))
         <= 1)%nat).
Proof.
  assert (Hlen : forall t res,
             early_return_outcome t res ->
             (List.length (redemption_calls t) <= 1)%nat).
  { intros t [e | [s | ]]; cbn [early_return_outcome].
    - auto.
    - intros (pre & rq & j & c & -> & Hpre & Hrq & _).
      rewrite redemption_calls_app, Hpre. unfold redemption_calls. cbn.
      rewrite Hrq. cbn. lia.
    - intros ->. cbn. lia. }
  intros r cdkey cookie. split.
  - destruct (run r [] (Cdkey.main cdkey cookie)) as [t res] eqn:H.
    apply Cdkey_main_loop_outcome in H. cbn [fst snd]. eauto.
  - destruct (run r [] (CdKeyRetrieval.main cdkey cookie)) as [t res] eqn:H.
    apply CdKeyRetrieval_main_loop_outcome in H. cbn [fst snd]. eauto.
Qed.

Lemma main_loops_agree (cdkey cookie : string) (r : remote) :
  never_absent r ->
  forall rs h,
    run r h (CdKeyRetrieval.main_loop cdkey cookie rs) =
    run r h (Cdkey.main_loop cdkey cookie rs).
Proof.
  intros Hr. induction rs as [ | region rest IH]; intros h; [reflexivity | ].
  cbn [CdKeyRetrieval.main_loop Cdkey.main_loop].
  cbn [get_json bind run].
  change (CdKeyRetrieval.roles_request cookie region)
    with (Cdkey.roles_request cookie region).
  destruct (r h (Cdkey.roles_request cookie region)) as [ | | j] eqn:Hj;
    cbn [bind run]; try reflexivity.
  rewrite !run_lift.
  destruct (getitem j "data") as [e | d] eqn:Hd; [reflexivity | ].
  rewrite (Hr h (Cdkey.roles_request cookie region) j d eq_refl Hj Hd).
  cbn [negb].
  rewrite !run_lift.
  destruct (getitem d "list") as [e | l]; [reflexivity | ].
  destruct (truthy l); [reflexivity | ].
  rewrite IH. reflexivity.
Qed.

(** X4: cd_key_retrieval.py differs from cdkey.py by its test of the data
    payload alone: against a remote side that never answers a role lookup
    with a falsy payload the two drivers make the same exchanges and end
    alike. *)
Theorem early_return_drivers_agree :
  forall (r : remote) (cdkey cookie : string),
    never_absent r ->
    run r [] (CdKeyRetrieval.main cdkey cookie) =
    run r [] (Cdkey.main cdkey cookie).
Proof.
  intros r cdkey cookie Hr. apply main_loops_agree. exact Hr.
Qed.

Lemma early_return_drivers_agree_witness :
  run (demo_remote euro_roles (fun _ => JInt (-2003))) []
    (CdKeyRetrieval.main "GENSHINGIFT" "c") =
  run (demo_remote euro_roles (fun _ => JInt (-2003))) []
    (Cdkey.main "GENSHINGIFT" "c").
Proof.
  apply early_return_drivers_agree.
  intros h rq j d Hrq Hj Hd. unfold demo_remote in Hj. rewrite Hrq in Hj.
  destruct (param "region" rq) as [[ | | | s | | ] | ]; try discriminate.
  injection Hj as <-. unfold euro_roles in Hd.
  destruct (String.eqb s "os_euro"); injection Hd as <-; reflexivity.
Defined.

Lemma dict_mem_keys {V : Type} (k : string) (d : dict string V) :
  dict_mem String.eqb k d = true <-> In k (map fst d).
Proof.
  unfold dict_mem. induction d as [ | [k' v'] d IH]; cbn.
  - split; [discriminate | intros []].
  - destruct (String.eqb_spec k' k) as [-> | N].
    + split; auto.
    + rewrite IH. split; [auto | intros [E | H]; [contradiction | exact H]].
Qed.

Lemma dict_set_keys {V : Type} (k : string) (v : V) (d : dict string V) :
  map fst (dict_set String.eqb k v d) =
  if dict_mem String.eqb k d then map fst d else map fst d ++ [k].
Proof.
  unfold dict_mem. induction d as [ | [k' v'] d IH]; cbn; [reflexivity | ].
  destruct (String.eqb k' k); cbn; [reflexivity | ].
  rewrite IH. destruct (dict_find String.eqb k d); reflexivity.
Qed.

Lemma dict_set_NoDup {V : Type} (k : string) (v : V) (d : dict string V) :
  NoDup (map fst d) -> NoDup (map fst (dict_set String.eqb k v d)).
Proof.
  intros H. rewrite dict_set_keys.
  destruct (dict_mem String.eqb k d) eqn:E; [exact H | ].
  apply NoDup_app; [exact H | repeat constructor; intros [] | ].
  intros x Hx [<- | []]. apply dict_mem_keys in Hx. congruence.
Qed.

Lemma In_dict_set_str {V : Type} (k : string) (v : V) :
  forall (d : dict string V) k0 v0,
    NoDup (map fst d) ->
    In (k0, v0) (dict_set String.eqb k v d) ->
    (k0 = k /\ v0 = v) \/ (k0 <> k /\ In (k0, v0) d).
Proof.
  induction d as [ | [k' v'] d IH]; intros k0 v0 Hnd Hin; cbn in Hin.
  - destruct Hin as [E | []]. injection E as <- <-. left. auto.
  - cbn in Hnd. apply NoDup_cons_iff in Hnd. destruct Hnd as [Hk' Hnd].
    destruct (String.eqb_spec k' k) as [-> | N].
    + destruct Hin as [E | Hin].
      * injection E as <- <-. left. auto.
      * right. split; [ | right; exact Hin].
        intros ->. apply Hk'. apply (in_map fst) in Hin. exact Hin.
    + destruct Hin as [E | Hin].
      * injection E as <- <-. right. split; [exact N | left; reflexivity].
      * destruct (IH _ _ Hnd Hin) as [H | [H1 H2]]; [left; exact H | ].
        right. split; [exact H1 | right; exact H2].
Qed.

Lemma dict_set_nonempty {K V : Type} (eqb : K -> K -> bool) (k : K) (v : V)
    (d : dict K V) :
  dict_set eqb k v d <> [].
Proof.
  destruct d as [ | [k' v'] d]; cbn; [discriminate | ].
  destruct (eqb k' k); discriminate.
Qed.

Lemma record_status_shape (allowed : list string)
    (acc acc' : option CdkeyInfoRetrieval.statuses) (region : string)
    (u : json) (s : string) :
  well_shaped allowed acc ->
  In region allowed ->
  CdkeyInfoRetrieval.record_status acc region u s = Ok acc' ->
  well_shaped allowed acc' /\ acc' <> None.
Proof.
  intros Hacc Hreg Hrec. unfold CdkeyInfoRetrieval.record_status in Hrec.
  cbv zeta in Hrec.
  match type of Hrec with
  | context [dict_mem String.eqb region ?d] => set (d1 := d) in Hrec
  end.
  assert (H1 : NoDup (map fst d1) /\
               forall region0 inner,
                 In (region0, inner) d1 ->
                 In region0 allowed /\ inner <> []).
  { unfold d1. destruct acc as [[ | x l] | ]; cbn.
    - split; [constructor | intros ? ? []].
    - destruct Hacc as (_ & Hnd & Hin). split; [exact Hnd | exact Hin].
    - split; [constructor | intros ? ? []]. }
  destruct H1 as [Hnd1 Hin1].
  match type of Hrec with
  | context [dict_find String.eqb region ?d] => set (d2 := d) in Hrec
  end.
  assert (H2 : NoDup (map fst d2) /\
               forall region0 inner,
                 In (region0, inner) d2 ->
                 In region0 allowed /\ (inner <> [] \/ region0 = region)).
  { unfold d2. destruct (negb (dict_mem String.eqb region d1)).
    - split; [apply dict_set_NoDup; exact Hnd1 | ].
      intros region0 inner Hin.
      apply In_dict_set_str in Hin; [ | exact Hnd1].
      destruct Hin as [[-> ->] | [_ Hin]]; [auto | ].
      destruct (Hin1 _ _ Hin). auto.
    - split; [exact Hnd1 | ]. intros region0 inner Hin.
      destruct (Hin1 _ _ Hin). auto. }
  destruct H2 as [Hnd2 Hin2].
  destruct (dict_find String.eqb region d2) as [inner | ]; [ | discriminate].
  destruct (hashable u); [ | discriminate].
  injection Hrec as <-. split; [ | discriminate].
  cbn [well_shaped]. split; [apply dict_set_nonempty | ].
  split; [apply dict_set_NoDup; exact Hnd2 | ].
  intros region0 inner0 Hin.
  apply In_dict_set_str in Hin; [ | exact Hnd2].
  destruct Hin as [[-> ->] | [N Hin]].
  - split; [exact Hreg | apply dict_set_nonempty].
  - destruct (Hin2 _ _ Hin) as [Ha [Hne | E]]; [auto | contradiction].
Qed.

Lemma roles_loop_shape (session : CdkeyInfoRetrieval.Session)
    (cd_key region : string) (allowed : list string) :
  In region allowed ->
  forall recs (r : remote) h acc t out,
    run r h (CdkeyInfoRetrieval.roles_loop session cd_key region recs acc)
      = (t, inr out) ->
    well_shaped allowed acc ->
    well_shaped allowed out
    /\ (out = None <-> acc = None /\ redemption_calls t = []).
Proof.
  intros Hreg. induction recs as [ | role rest IH];
    intros r h acc t out H Hacc.
  - cbn in H. injection H as <- <-. split; [exact Hacc | ].
    split; [auto | intros [E _]; exact E].
  - apply roles_loop_inv in H.
    destruct H as (u & b & j & c & s & acc' & t' & Ha & Hr & Hc & Hs & Hrec
                   & -> & H).
    destruct (record_status_shape _ _ _ _ _ _ Hacc Hreg Hrec) as [Hw Hn].
    destruct (IH _ _ _ _ _ H Hw) as [Hout Hiff]. split; [exact Hout | ].
    split.
    + intros E. apply Hiff in E. destruct E as [E _]. contradiction.
    + intros [_ E]. discriminate E.
Qed.

Lemma regions_loop_shape (session : CdkeyInfoRetrieval.Session)
    (cd_key : string) (allowed : list string) :
  forall rs (r : remote) h acc t out,
    incl rs allowed ->
    run r h (CdkeyInfoRetrieval.regions_loop session cd_key rs acc)
      = (t, inr out) ->
    well_shaped allowed acc ->
    well_shaped allowed out
    /\ (out = None <-> acc = None /\ redemption_calls t = []).
Proof.
  induction rs as [ | region rest IH]; intros r h acc t out Hincl H Hacc.
  - cbn in H. injection H as <- <-. split; [exact Hacc | ].
    split; [auto | intros [E _]; exact E].
  - apply regions_loop_inv in H.
    destruct H as (j & recs & t1 & acc' & t2 & Hr & Hl & H1 & H2 & ->).
    apply (roles_loop_shape session cd_key region allowed) in H1;
      [ | apply Hincl; left; reflexivity | exact Hacc].
    destruct H1 as [Hw1 Hiff1].
    apply IH in H2;
      [ | intros x Hx; apply Hincl; right; exact Hx | exact Hw1].
    destruct H2 as [Hw2 Hiff2]. split; [exact Hw2 | ].
    change (redemption_calls (?ev :: t1 ++ t2))
      with (redemption_calls (t1 ++ t2)).
    rewrite redemption_calls_app, Hiff2, Hiff1.
    split.
    + intros [[E1 E2] E3]. rewrite E2, E3. auto.
    + intros [E1 E2]. apply app_eq_nil in E2. destruct E2. auto.
Qed.

(** X5: a table that the exhaustive driver returns is never the empty
    dict: the driver returns [None] exactly when it made no redemption
    call, and otherwise a dict whose keys are distinct regions of the fixed
    list, each holding at least one status. *)
Theorem exhaustive_table_shape :
  forall (r : remote) (cd_key cookie : string) (t : trace)
         (out : option CdkeyInfoRetrieval.statuses),
    run r [] (CdkeyInfoRetrieval.main cd_key cookie) = (t, Ok out) ->
    well_shaped regions out
    /\ (out = None <-> redemption_calls t = []).
Proof.
  intros r cd_key cookie t out H. unfold CdkeyInfoRetrieval.main in H.
  apply (regions_loop_shape _ _ regions) in H;
    [ | apply incl_refl | exact I].
  destruct H as [Hw Hiff]. split; [exact Hw | ].
  rewrite Hiff. split; [intros [_ E]; exact E | auto].
Qed.

Lemma exhaustive_table_shape_witness :
  well_shaped regions
    (Some [("os_usa", [(JInt 7, "success"); (JInt 8, "already in use")])]).
Proof.
  exact (proj1 (exhaustive_table_shape (demo_remote usa_roles first_come)
                  "NS92PG6DB52M" "" _ _ eq_refl)).
Defined.

Lemma dict_find_set_same {K V : Type} (eqb : K -> K -> bool) (k : K) (v : V)
    (d : dict K V) :
  eqb k k = true -> dict_find eqb k (dict_set eqb k v d) = Some v.
Proof.
  intros Hk. induction d as [ | [k' v'] d IH]; cbn.
  - rewrite Hk. reflexivity.
  - destruct (eqb k' k) eqn:E; cbn; rewrite E; [reflexivity | exact IH].
Qed.

Lemma dict_find_set_kept {K V : Type} (eqb : K -> K -> bool) (k k0 : K)
    (v : V) :
  forall (d : dict K V) x,
    dict_find eqb k0 d = Some x ->
    exists x', dict_find eqb k0 (dict_set eqb k v d) = Some x'.
Proof.
  induction d as [ | [k' v'] d IH]; intros x H; cbn in H; [discriminate | ].
  cbn. destruct (eqb k' k); cbn; destruct (eqb k' k0); eauto.
Qed.

Lemma dict_find_set_other_str {V : Type} (k k0 : string) (v : V)
    (d : dict string V) :
  k0 <> k ->
  dict_find String.eqb k0 (dict_set String.eqb k v d) =
  dict_find String.eqb k0 d.
Proof.
  intros N. induction d as [ | [k' v'] d IH]; cbn.
  - destruct (String.eqb_spec k k0); [congruence | reflexivity].
  - destruct (String.eqb_spec k' k) as [-> | N']; cbn.
    + destruct (String.eqb_spec k k0); [congruence | reflexivity].
    + destruct (String.eqb k' k0); [reflexivity | exact IH].
Qed.

Lemma record_status_has_status
    (acc acc' : option CdkeyInfoRetrieval.statuses) (region : string)
    (u : json) (s : string) :
  CdkeyInfoRetrieval.record_status acc region u s = Ok acc' ->
  has_status acc' region u
  /\ (forall region0 uid0,
        has_status acc region0 uid0 -> has_status acc' region0 uid0).
Proof.
  intros Hrec. pose proof (record_status_hashable _ _ _ _ _ Hrec) as Hh.
  unfold CdkeyInfoRetrieval.record_status in Hrec. cbv zeta in Hrec.
  match type of Hrec with
  | context [dict_mem String.eqb region ?d] => set (d1 := d) in Hrec
  end.
  assert (H1 : forall d, acc = Some d -> d <> [] -> d1 = d).
  { intros d -> Hd. unfold d1. destruct d; [contradiction | reflexivity]. }
  match type of Hrec with
  | context [dict_find String.eqb region ?d] => set (d2 := d) in Hrec
  end.
  assert (H2 : forall region0 inner0,
             dict_find String.eqb region0 d1 = Some inner0 ->
             dict_find String.eqb region0 d2 = Some inner0).
  { intros region0 inner0 Hf. unfold d2.
    destruct (dict_mem String.eqb region d1) eqn:Em; cbn [negb];
      [exact Hf | ].
    rewrite dict_find_set_other_str; [exact Hf | ].
    intros ->. unfold dict_mem in Em. rewrite Hf in Em. discriminate. }
  destruct (dict_find String.eqb region d2) as [inner | ] eqn:Hf;
    [ | discriminate].
  rewrite Hh in Hrec. injection Hrec as <-. split.
  - exists (dict_set String.eqb region (dict_set py_eqb u s inner) d2),
      (dict_set py_eqb u s inner), s.
    split; [reflexivity | ]. split.
    + apply dict_find_set_same. apply String.eqb_refl.
    + apply dict_find_set_same. apply py_eqb_refl. exact Hh.
  - intros region0 uid0 (d & inner0 & s0 & -> & Hr0 & Hu0).
    assert (Hd : d <> []) by (intros ->; discriminate).
    rewrite <- (H1 d eq_refl Hd) in Hr0. apply H2 in Hr0.
    destruct (String.eqb_spec region0 region) as [-> | N].
    + rewrite Hf in Hr0. injection Hr0 as ->.
      destruct (dict_find_set_kept py_eqb u uid0 s _ _ Hu0) as [s' Hs'].
      exists (dict_set String.eqb region (dict_set py_eqb u s inner0) d2),
        (dict_set py_eqb u s inner0), s'.
      split; [reflexivity | ]. split; [ | exact Hs'].
      apply dict_find_set_same. apply String.eqb_refl.
    + exists (dict_set String.eqb region (dict_set py_eqb u s inner) d2),
        inner0, s0.
      split; [reflexivity | ]. split; [ | exact Hu0].
      rewrite dict_find_set_other_str; [exact Hr0 | exact N].
Qed.

Lemma roles_loop_has_status (session : CdkeyInfoRetrieval.Session)
    (cd_key region : string) :
  forall recs (r : remote) h acc t out,
    run r h (CdkeyInfoRetrieval.roles_loop session cd_key region recs acc)
      = (t, inr out) ->
    (forall region0 u b,
       In (region0, u, b) (account_refs region recs) ->
       has_status out region0 u)
    /\ (forall region0 uid0,
          has_status acc region0 uid0 -> has_status out region0 uid0).
Proof.
  induction recs as [ | role rest IH]; intros r h acc t out H.
  - cbn in H. injection H as <- <-. split; [intros ? ? ? [] | auto].
  - apply roles_loop_inv in H.
    destruct H as (u & b & j & c & s & acc' & t' & Ha & Hr & Hc & Hs & Hrec
                   & -> & H).
    apply record_status_has_status in Hrec. destruct Hrec as [Hnew Hold].
    apply IH in H. destruct H as [Hrest Hkeep]. split.
    + intros region0 u0 b0 Hin. unfold account_refs in Hin.
      cbn [flat_map] in Hin. rewrite Ha in Hin.
      destruct Hin as [E | Hin].
      * injection E as <- <- <-. apply Hkeep. exact Hnew.
      * eapply Hrest. exact Hin.
    + intros region0 uid0 H0. apply Hkeep. apply Hold. exact H0.
Qed.

Lemma regions_loop_has_status (session : CdkeyInfoRetrieval.Session)
    (cd_key : string) :
  forall rs (r : remote) h acc t out,
    run r h (CdkeyInfoRetrieval.regions_loop session cd_key rs acc)
      = (t, inr out) ->
    (forall region u b,
       In (region, u, b) (discovered t) -> has_status out region u)
    /\ (forall region uid,
          has_status acc region uid -> has_status out region uid).
Proof.
  induction rs as [ | region rest IH]; intros r h acc t out H.
  - cbn in H. injection H as <- <-. split; [intros ? ? ? [] | auto].
  - apply regions_loop_inv in H.
    destruct H as (j & recs & t1 & acc' & t2 & Hr & Hl & H1 & H2 & ->).
    pose proof (roles_loop_calls _ _ _ _ _ _ _ _ _ H1) as [_ Hd1].
    apply roles_loop_has_status in H1. destruct H1 as [Hnew1 Hkeep1].
    apply IH in H2. destruct H2 as [Hnew2 Hkeep2].
    split; [ | intros region0 uid0 H0; apply Hkeep2, Hkeep1; exact H0].
    intros region0 u b Hin.
    assert (Hd : discovered
                   ((CdkeyInfoRetrieval.roles_request session region, Body j)
                      :: t1 ++ t2) =
                 account_refs region recs ++ discovered (t1 ++ t2)).
    { unfold discovered at 1. cbn [flat_map].
      change (is_role_lookup
                (CdkeyInfoRetrieval.roles_request session region)) with true.
      change (region_of (CdkeyInfoRetrieval.roles_request session region))
        with (Some region).
      cbv iota. rewrite Hl. reflexivity. }
    rewrite Hd, discovered_app, Hd1 in Hin. cbn [app] in Hin.
    apply in_app_or in Hin. destruct Hin as [Hin | Hin].
    + apply Hkeep2. eapply Hnew1. exact Hin.
    + eapply Hnew2. exact Hin.
Qed.

(** X6: in a run of the exhaustive driver that returns, every account that
    a role lookup of the run returned is in the table: the table has an
    entry for its id under its region. *)
Theorem exhaustive_table_complete :
  forall (r : remote) (cd_key cookie : string) (t : trace)
         (out : option CdkeyInfoRetrieval.statuses) (region : string)
         (u b : json),
    run r [] (CdkeyInfoRetrieval.main cd_key cookie) = (t, Ok out) ->
    In (region, u, b) (discovered t) ->
    has_status out region u.
Proof.
  intros r cd_key cookie t out region u b H Hin.
  unfold CdkeyInfoRetrieval.main in H.
  apply regions_loop_has_status in H. destruct H as [H _].
  eapply H. exact Hin.
Qed.

Lemma exhaustive_table_complete_witness :
  has_status
    (Some [("os_usa", [(JInt 7, "success"); (JInt 8, "already in use")])])
    "os_usa" (JInt 8).
Proof.
  apply (exhaustive_table_complete (demo_remote usa_roles first_come)
           "NS92PG6DB52M" ""
           (fst (run (demo_remote usa_roles first_come) []
                   (CdkeyInfoRetrieval.main "NS92PG6DB52M" "")))
           _ "os_usa" (JInt 8) (JStr "hk4e_global") eq_refl).
  right. left. reflexivity.
Defined.

(** X7: recording a status fails only on an account id that cannot be a
    dict key (a JSON array or object), with [TypeError]; for any other id
    it succeeds, the table then holds that status at [region][uid], and
    every account that was in the table is still in it. *)
Theorem record_status_round_trip :
  forall (acc : option CdkeyInfoRetrieval.statuses) (region : string)
         (u : json) (s : string),
    (hashable u = false ->
     CdkeyInfoRetrieval.record_status acc region u s = Err TypeError)
    /\
    (hashable u = true ->
     exists d inner,
       CdkeyInfoRetrieval.record_status acc region u s = Ok (Some d) /\
       dict_find String.eqb region d = Some inner /\
       dict_find py_eqb u inner = Some s /\
       (forall region0 uid0,
          has_status acc region0 uid0 -> has_status (Some d) region0 uid0)).
Proof.
  intros acc region u s.
  pose proof (eq_refl (CdkeyInfoRetrieval.record_status acc region u s))
    as Hres.
  unfold CdkeyInfoRetrieval.record_status at 2 in Hres. cbv zeta in Hres.
  match type of Hres with
  | context [dict_find String.eqb region ?d] => set (d2 := d) in Hres
  end.
  assert (Hfind : exists inner, dict_find String.eqb region d2 = Some inner).
  { unfold d2.
    match goal with
    | |- context [dict_mem String.eqb region ?d] => generalize d
    end.
    intros d1. unfold dict_mem.
    destruct (dict_find String.eqb region d1) as [inner | ] eqn:E;
      cbn [negb].
    - eauto.
    - exists []. apply dict_find_set_same. apply String.eqb_refl. }
  destruct Hfind as [inner Hfind]. rewrite Hfind in Hres.
  split; intros Hh; rewrite Hh in Hres; [exact Hres | ].
  destruct (record_status_has_status _ _ _ _ _ Hres) as [_ Hkeep].
  exists (dict_set String.eqb region (dict_set py_eqb u s inner) d2),
    (dict_set py_eqb u s inner).
  split; [exact Hres | ]. split; [ | split; [ | exact Hkeep]].
  - apply dict_find_set_same. apply String.eqb_refl.
  - apply dict_find_set_same. apply py_eqb_refl. exact Hh.
Qed.

Lemma record_status_round_trip_witness :
  CdkeyInfoRetrieval.record_status None "os_usa" (JArr []) "success"
    = Err TypeError
  /\ exists d inner,
       CdkeyInfoRetrieval.record_status
         (Some [("os_usa", [(JInt 7, "success")])]) "os_euro" (JStr "8")
         "expired" = Ok (Some d) /\
       dict_find String.eqb "os_euro" d = Some inner /\
       dict_find py_eqb (JStr "8") inner = Some "expired" /\
       (forall region0 uid0,
          has_status (Some [("os_usa", [(JInt 7, "success")])]) region0 uid0 ->
          has_status (Some d) region0 uid0).
Proof.
  split.
  - exact (proj1 (record_status_round_trip None "os_usa" (JArr []) "success")
             eq_refl).
  - exact (proj2 (record_status_round_trip
                    (Some [("os_usa", [(JInt 7, "success")])]) "os_euro"
                    (JStr "8") "expired") eq_refl).
Defined.

Lemma status_table_any (c : json) :
  dict_get status_table c "unknown" = label_of_retcode c.
Proof.
  destruct c as [ | [ | ] | z | s | l | kvs]; try reflexivity.
  apply status_table_label.
Qed.

Lemma redemption_check_any (r : remote) (h : trace) (rq : request) (j : json) :
  r h rq = Body j ->
  run r h
    (cd_key_info <- get_json rq ;;
     retcode <- lift (getitem cd_key_info "retcode") ;;
     lift (dict_get status_table retcode "unknown")) =
  ([(rq, Body j)],
   match getitem j "retcode" with
   | inl e => inl e
   | inr c => label_of_retcode c
   end).
Proof.
  intros Hr. erewrite run_get_json by exact Hr. rewrite run_lift.
  destruct (getitem j "retcode") as [e | c]; [reflexivity | ].
  cbn [run lift]. rewrite status_table_any.
  destruct (label_of_retcode c); reflexivity.
Qed.

(** X8: the redemption check, by the kind of retcode it is answered,
    for every kind but numbers with a fraction or an exponent, which the
    model of JSON leaves out.  After its one call it raises [KeyError]
    when the answer has no [retcode], [TypeError] when the answer is not an
    object or the retcode is an array or an object; it returns the table's
    label for an integer, "success" for the retcode [false], which Python
    finds under the key 0, and "unknown" for [true], [null] and strings. *)
Theorem redemption_check_by_retcode_kind :
  forall (r : remote) (h : trace) (uid game_biz : json)
         (cdkey cookie region : string) (j : json),
    let outcome_of (j : json) : result string :=
      match getitem j "retcode" with
      | inl e => inl e
      | inr c => label_of_retcode c
      end in
    (r h (Cdkey.cdkey_request uid cdkey cookie region game_biz) = Body j ->
     run r h (Cdkey.get_cdkey_info uid cdkey cookie region game_biz) =
     ([(Cdkey.cdkey_request uid cdkey cookie region game_biz, Body j)],
      outcome_of j))
    /\
    (r h (CdKeyRetrieval.cdkey_request uid cdkey cookie region game_biz)
       = Body j ->
     run r h (CdKeyRetrieval.get_cdkey_status uid cdkey cookie region game_biz)
     = ([(CdKeyRetrieval.cdkey_request uid cdkey cookie region game_biz,
          Body j)],
        outcome_of j))
    /\
    (forall session,
       r h (CdkeyInfoRetrieval.cdkey_request session uid cdkey region game_biz)
         = Body j ->
       run r h
         (CdkeyInfoRetrieval.get_cdkey_status session uid cdkey region game_biz)
       = ([(CdkeyInfoRetrieval.cdkey_request session uid cdkey region game_biz,
            Body j)],
          outcome_of j)).
Proof.
  intros r h uid game_biz cdkey cookie region j outcome_of.
  split; [ | split]; [ | | intros session]; intros Hr;
    apply redemption_check_any; exact Hr.
Qed.

Lemma redemption_check_by_retcode_kind_witness :
  let r := demo_remote (fun _ => roles_body []) (fun _ => JBool false) in
  run r [] (Cdkey.get_cdkey_info (JInt 7) "GENSHINGIFT" "c" "os_usa"
              (JStr "hk4e_global")) =
    ([(Cdkey.cdkey_request (JInt 7) "GENSHINGIFT" "c" "os_usa"
         (JStr "hk4e_global"),
       Body (JObj [("retcode", JBool false)]))],
     Ok "success").
Proof.
  intros r.
  exact (proj1 (redemption_check_by_retcode_kind r [] (JInt 7)
                  (JStr "hk4e_global") "GENSHINGIFT" "c" "os_usa"
                  (JObj [("retcode", JBool false)])) eq_refl).
Defined.

(** X9: a role list that is [null] inside a data payload that is there.
    The early-return drivers take it for "no roles", pass every region and
    return [None]; the exhaustive driver iterates over it and raises
    [TypeError] right after the first lookup. *)
Theorem null_role_list :
  forall (r : remote) (cdkey cookie : string) (j d : json),
    getitem j "data" = Ok d ->
    truthy d = true ->
    getitem d "list" = Ok JNull ->
    ((forall s, In s regions ->
        answers r (Cdkey.roles_request cookie s) (Body j)) ->
     run r [] (Cdkey.main cdkey cookie) =
     (lookups (Cdkey.roles_request cookie) (fun _ => j) regions, Ok None))
    /\
    ((forall s, In s regions ->
        answers r (CdKeyRetrieval.roles_request cookie s) (Body j)) ->
     run r [] (CdKeyRetrieval.main cdkey cookie) =
     (lookups (CdKeyRetrieval.roles_request cookie) (fun _ => j) regions,
      Ok None))
    /\
    (r [] (CdkeyInfoRetrieval.roles_request
             (CdkeyInfoRetrieval.mk_session [("Cookie", cookie)]) "os_usa")
       = Body j ->
     run r [] (CdkeyInfoRetrieval.main cdkey cookie) =
     ([(CdkeyInfoRetrieval.roles_request
          (CdkeyInfoRetrieval.mk_session [("Cookie", cookie)]) "os_usa",
        Body j)],
      Err TypeError)).
Proof.
  intros r cdkey cookie j d Hd Ht Hl.
  assert (He : empty_role_list j = true).
  { unfold empty_role_list. rewrite Hd, Hl. reflexivity. }
  split; [ | split].
  - intros Hans. unfold Cdkey.main. rewrite <- (app_nil_r regions) at 1.
    rewrite (loop_skips (Cdkey.main_loop cdkey cookie)
               (Cdkey.roles_request cookie) empty_role_list
               (Cdkey_loop_skip cdkey cookie) r (fun _ => j) regions [] []
               Hans (fun _ _ => He)).
    cbn [Cdkey.main_loop run]. rewrite app_nil_r. reflexivity.
  - intros Hans. unfold CdKeyRetrieval.main.
    rewrite <- (app_nil_r regions) at 1.
    rewrite (loop_skips (CdKeyRetrieval.main_loop cdkey cookie)
               (CdKeyRetrieval.roles_request cookie)
               (fun j => absent_data j || empty_role_list j)
               (CdKeyRetrieval_loop_skip cdkey cookie) r (fun _ => j)
               regions [] [] Hans).
    + cbn [CdKeyRetrieval.main_loop run]. rewrite app_nil_r. reflexivity.
    + intros s _. cbv beta. rewrite He. apply orb_true_r.
  - intros Hr. unfold CdkeyInfoRetrieval.main. cbv zeta.
    unfold regions. cbn [CdkeyInfoRetrieval.regions_loop].
    unfold CdkeyInfoRetrieval.session_get.
    erewrite run_get_json by exact Hr.
    rewrite run_lift, Hd, Ht. cbn [negb].
    rewrite run_lift, Hl. reflexivity.
Qed.

Lemma null_role_list_witness :
  let j := JObj [("retcode", JInt 0); ("data", JObj [("list", JNull)])] in
  let r : remote := fun _ _ => Body j in
  snd (run r [] (Cdkey.main "GENSHINGIFT" "c")) = Ok None
  /\ snd (run r [] (CdkeyInfoRetrieval.main "GENSHINGIFT" "c"))
     = Err TypeError.
Proof.
  intros j r.
  pose proof (null_role_list r "GENSHINGIFT" "c" j
                (JObj [("list", JNull)]) eq_refl eq_refl eq_refl)
    as (H1 & _ & H3).
  split.
  - rewrite H1; [reflexivity | intros s _ h; reflexivity].
  - rewrite (H3 eq_refl). reflexivity.
Defined.




(** C3, at an input that breaks it: the account service answers
    [data: null] for os_usa and lists accounts in os_euro.  cdkey.py
    subscripts the absent payload of os_usa and raises [TypeError] before
    it reaches os_euro, so it produces no result; cd_key_retrieval.py
    passes os_usa and returns the status of the first account of
    os_euro. *)
Theorem first_account_missed_after_absent_data :
  let r := demo_remote euro_roles_after_no_data (fun _ => JInt 0) in
  first_role (euro_roles_after_no_data "os_euro") = Some (role 7)
  /\ run r [] (Cdkey.main "GENSHINGIFT" "c") =
       ([(Cdkey.roles_request "c" "os_usa", Body no_data_body)],
        Err TypeError)
  /\ run r [] (CdKeyRetrieval.main "GENSHINGIFT" "c") =
       ([(CdKeyRetrieval.roles_request "c" "os_usa", Body no_data_body);
         (CdKeyRetrieval.roles_request "c" "os_euro",
          Body (roles_body [role 7; role 8]));
         (CdKeyRetrieval.cdkey_request (JInt 7) "GENSHINGIFT" "c" "os_euro"
            (JStr "hk4e_global"),
          Body (JObj [("retcode", JInt 0)]))],
        Ok (Some "success")).
Proof. intros r. repeat split. Qed.

(** C8, at an input that breaks it: the account service answers
    [data: null] for all four regions.  cdkey.py raises [TypeError] at the
    first region instead of returning [None]; cd_key_retrieval.py passes
    the four regions and returns [None]. *)
Theorem absent_data_everywhere :
  let r := demo_remote (fun _ => no_data_body) (fun _ => JInt 0) in
  absent_data no_data_body = true
  /\ snd (run r [] (Cdkey.main "GENSHINGIFT" "c")) = Err TypeError
  /\ List.length (fst (run r [] (Cdkey.main "GENSHINGIFT" "c"))) = 1%nat
  /\ run r [] (CdKeyRetrieval.main "GENSHINGIFT" "c") =
       (lookups (CdKeyRetrieval.roles_request "c") (fun _ => no_data_body)
          regions,
        Ok None).
Proof. intros r. repeat split. Qed.



